(** * The blog client (src/blog/blog.js): session, requests, rendering.

    The script is a browser client of a small blogging API.  It keeps one
    global [state] object, one entry of [localStorage], and writes into a
    handful of DOM nodes.  Every handler is an [async] function: it runs
    until it awaits a network call, and is resumed later, on the same
    thread, with whatever the network answered.

    The embedding follows that shape:
    - JSON data received from the server is a [JValue]; property reads,
      string conversion and truthiness follow the language rules, a failed
      one is a thrown [TypeError];
    - synchronous code is a function in the monad [M] (state passing, plus a
      completion that is normal or a throw; what was written before a throw
      stays written);
    - an [async] handler is a [Susp]: it has finished, or it waits for one
      request ([AwaitFetch]) or for a [Promise.all] of requests ([AwaitAll]),
      and its continuation receives the answer together with the state as it
      is at the time of resumption;
    - the page is an event loop ([step]) over the state and the list of
      suspended handlers: a user event starts a handler, a network answer
      resumes one.

    JavaScript strings are kept as their UTF-8 bytes ([string]); every
    operation of the script on strings (replacing one of five ASCII
    characters, trimming white space, concatenation, comparison,
    percent-encoding) gives the same text on the UTF-8 form as on UTF-16 code
    units, for well-formed text. *)

From Stdlib Require Import String Ascii List ZArith Bool Arith Lia.
Import ListNotations.
Open Scope string_scope.

(** ** Characters and strings *)

Definition dquote : ascii := "034"%char.
Definition newline : ascii := "010"%char.
Definition q : string := String dquote EmptyString.
Definition nl : string := String newline EmptyString.

(** [s.replace(/c/g, rep)] for a pattern that is one literal character. *)
Fixpoint replaceAll (c : ascii) (rep : string) (s : string) : string :=
  match s with
  | EmptyString => EmptyString
  | String a rest =>
      if Ascii.eqb a c then rep ++ replaceAll c rep rest
      else String a (replaceAll c rep rest)
  end.

(** [s] without the prefix [p], when it starts with it. *)
Fixpoint strip_prefix (p s : string) : option string :=
  match p, s with
  | EmptyString, _ => Some s
  | String a p', String b s' =>
      if Ascii.eqb a b then strip_prefix p' s' else None
  | String _ _, EmptyString => None
  end.

Fixpoint occurs (c : ascii) (s : string) : bool :=
  match s with
  | EmptyString => false
  | String a rest => Ascii.eqb a c || occurs c rest
  end.

(** src/blog/blog.js, lines 299-306: five replacement passes, [&] first. *)
Definition escapeHtml (value : string) : string :=
  replaceAll "'" "&#039;"
    (replaceAll dquote "&quot;"
       (replaceAll ">" "&gt;"
          (replaceAll "<" "&lt;"
             (replaceAll "&" "&amp;" value)))).

(** What follows the ampersand in the five entity forms. *)
Definition entity_tails : list string :=
  ["amp;"; "lt;"; "gt;"; "quot;"; "#039;"].

Definition starts_entity_tail (s : string) : bool :=
  existsb (fun t => match strip_prefix t s with Some _ => true | None => false end)
          entity_tails.

(** Every ampersand of [s] opens one of the five entity forms. *)
Fixpoint amp_opens_entity (s : string) : bool :=
  match s with
  | EmptyString => true
  | String a rest =>
      (if Ascii.eqb a "&" then starts_entity_tail rest else true)
      && amp_opens_entity rest
  end.

(** None of the characters less-than, greater-than, double quote and
    apostrophe at all, and no ampersand outside an entity form. *)
Definition entity_safe (s : string) : bool :=
  negb (occurs "<" s) && negb (occurs ">" s) && negb (occurs dquote s)
  && negb (occurs "'" s) && amp_opens_entity s.

(** The inverse the specification speaks of, not part of the script: the
    decoding an HTML parser applies to the five entity forms, left to right;
    any other text is kept.  [fuel] bounds the number of characters
    produced; the length of the input is always enough. *)
Fixpoint decode_entities_fuel (fuel : nat) (s : string) : string :=
  match fuel with
  | O => s
  | S fuel' =>
      match s with
      | EmptyString => EmptyString
      | String a rest =>
          if Ascii.eqb a "&" then
            match strip_prefix "amp;" rest with
            | Some r => String "&" (decode_entities_fuel fuel' r)
            | None =>
            match strip_prefix "lt;" rest with
            | Some r => String "<" (decode_entities_fuel fuel' r)
            | None =>
            match strip_prefix "gt;" rest with
            | Some r => String ">" (decode_entities_fuel fuel' r)
            | None =>
            match strip_prefix "quot;" rest with
            | Some r => String dquote (decode_entities_fuel fuel' r)
            | None =>
            match strip_prefix "#039;" rest with
            | Some r => String "'" (decode_entities_fuel fuel' r)
            | None => String a (decode_entities_fuel fuel' rest)
            end end end end end
          else String a (decode_entities_fuel fuel' rest)
      end
  end.

Definition decode_entities (s : string) : string :=
  decode_entities_fuel (String.length s) s.

(** The text one character becomes under [escapeHtml]. *)
Definition escape_char (a : ascii) : string :=
  if Ascii.eqb a "&" then "&amp;"
  else if Ascii.eqb a "<" then "&lt;"
  else if Ascii.eqb a ">" then "&gt;"
  else if Ascii.eqb a dquote then "&quot;"
  else if Ascii.eqb a "'" then "&#039;"
  else String a EmptyString.


(** ** Values, exceptions, completions *)

(** A value received from the server, or one of the two empty values of the
    language.  A number is kept as the text [Number::toString] gives for it
    (the only use the script makes of a number is to test it for truth or to
    turn it into text); the fields of an object are those [JSON.parse] built,
    in order. *)
#[local] Set Warnings "-register-all".
Inductive JValue : Type :=
| JUndefined
| JNull
| JBool (b : bool)
| JNum (text : string)
| JStr (s : string)
| JArr (items : list JValue)
| JObj (fields : list (string * JValue)).

(** What the script can throw or be rejected with.  [UnauthorizedError] is
    the class of line 25; [Error] is the plain class with its message;
    [TypeError] and [SyntaxError] are raised by the language and the platform
    (a property read on null, a call of something that is no function, a
    failed [fetch], a body that is no JSON); their messages vary between
    engines and are not kept. *)
Inductive Exn : Type :=
| UnauthorizedError (message : string)
| Error (message : string)
| TypeError
| SyntaxError.

(** [error instanceof UnauthorizedError] *)
Definition instanceofUnauthorized (error : Exn) : bool :=
  match error with UnauthorizedError _ => true | _ => false end.

Inductive Completion (A : Type) : Type :=
| Normal (a : A)
| Throw (e : Exn).
Arguments Normal {A} a.
Arguments Throw {A} e.

Definition cbind {A B} (c : Completion A) (k : A -> Completion B) : Completion B :=
  match c with Normal a => k a | Throw e => Throw e end.

Definition is_normal {A} (c : Completion A) : bool :=
  match c with Normal _ => true | Throw _ => false end.

(** Truth of a value in a condition. *)
Definition truthy (v : JValue) : bool :=
  match v with
  | JUndefined | JNull => false
  | JBool b => b
  | JNum text => negb (text =? "0") && negb (text =? "NaN")
  | JStr s => negb (s =? "")
  | JArr _ | JObj _ => true
  end.

Fixpoint assoc {A : Type} (key : string) (l : list (string * A)) : option A :=
  match l with
  | [] => None
  | (k, v) :: rest => if k =? key then Some v else assoc key rest
  end.

(** [v.name] for the names the script reads ([token], [posts], [id],
    [title], [body], [createdAt]): none of them is inherited from a
    prototype, so the read gives an own field of an object, [undefined] on
    any other value, and throws on null and undefined. *)
Definition getProp (v : JValue) (name : string) : Completion JValue :=
  match v with
  | JUndefined | JNull => Throw TypeError
  | JObj fields =>
      match assoc name fields with
      | Some x => Normal x
      | None => Normal JUndefined
      end
  | _ => Normal JUndefined
  end.

(** Conversion to text, as a template literal, [encodeURIComponent] and
    [localStorage.setItem] apply it.  An array joins its elements with
    commas, null and undefined elements giving the empty text.  An object
    gives the fixed text of [Object.prototype.toString], unless it has a
    field named [toString] of its own: that field is no function, the
    inherited [valueOf] returns the object itself, and the conversion
    throws. *)
Fixpoint toString (v : JValue) : Completion string :=
  match v with
  | JUndefined => Normal "undefined"
  | JNull => Normal "null"
  | JBool b => Normal (if b then "true" else "false")
  | JNum text => Normal text
  | JStr s => Normal s
  | JArr items =>
      (fix join (first : bool) (l : list JValue) : Completion string :=
         match l with
         | [] => Normal ""
         | x :: rest =>
             cbind (match x with
                    | JUndefined | JNull => Normal ""
                    | _ => toString x
                    end)
                   (fun s =>
                      cbind (join false rest)
                            (fun r => Normal ((if first then "" else ",") ++ s ++ r)))
         end) true items
  | JObj fields =>
      match assoc "toString" fields with
      | Some _ => Throw TypeError
      | None => Normal "[object Object]"
      end
  end.

(** ** Built-in functions of the platform *)

Definition bytes (l : list nat) : string :=
  fold_right (fun n s => String (ascii_of_nat n) s) EmptyString l.

(** White space and line terminators of the language, in UTF-8: tab, line
    feed, vertical tab, form feed, carriage return, space, U+00A0, U+1680,
    U+2000 to U+200A, U+2028, U+2029, U+202F, U+205F, U+3000, U+FEFF. *)
Definition white_space : list (list nat) :=
  ([ [9]; [10]; [11]; [12]; [13]; [32]; [194; 160]; [225; 154; 128] ]
   ++ map (fun n => [226; 128; n]) (seq 128 11)
   ++ [ [226; 128; 168]; [226; 128; 169]; [226; 128; 175]; [226; 129; 159];
        [227; 128; 128]; [239; 187; 191] ])%list.

Fixpoint strip_any (prefixes : list string) (s : string) : option string :=
  match prefixes with
  | [] => None
  | p :: more =>
      match strip_prefix p s with
      | Some r => Some r
      | None => strip_any more s
      end
  end.

Fixpoint strip_all (fuel : nat) (prefixes : list string) (s : string) : string :=
  match fuel with
  | O => s
  | S fuel' =>
      match strip_any prefixes s with
      | Some r => strip_all fuel' prefixes r
      | None => s
      end
  end.

Fixpoint string_rev (s : string) : string :=
  match s with
  | EmptyString => EmptyString
  | String a rest => string_rev rest ++ String a EmptyString
  end.

Definition trimStart (s : string) : string :=
  strip_all (String.length s) (map bytes white_space) s.

Definition trimEnd (s : string) : string :=
  string_rev
    (strip_all (String.length s)
               (map (fun w => bytes (rev w)) white_space) (string_rev s)).

(** [String.prototype.trim] *)
Definition trim (s : string) : string := trimEnd (trimStart s).

Definition hex_digit (upper : bool) (n : nat) : ascii :=
  if (n <? 10)%nat then ascii_of_nat (48 + n)
  else ascii_of_nat ((if upper then 55 else 87) + n).

Definition in_range (lo hi : nat) (a : ascii) : bool :=
  (lo <=? nat_of_ascii a)%nat && (nat_of_ascii a <=? hi)%nat.

(** Characters [encodeURIComponent] leaves as they are. *)
Definition uri_unreserved (a : ascii) : bool :=
  in_range 65 90 a || in_range 97 122 a || in_range 48 57 a
  || existsb (Ascii.eqb a) ["-"; "_"; "."; "!"; "~"; "*"; "'"; "("; ")"]%char.

(** [encodeURIComponent]: every other byte of the UTF-8 form becomes a
    percent sign and two upper-case hexadecimal digits. *)
Fixpoint encodeURIComponent (s : string) : string :=
  match s with
  | EmptyString => EmptyString
  | String a rest =>
      if uri_unreserved a then String a (encodeURIComponent rest)
      else String "%" (String (hex_digit true (nat_of_ascii a / 16))
                         (String (hex_digit true (nat_of_ascii a mod 16))
                            (encodeURIComponent rest)))
  end.

Definition backslash : ascii := "092"%char.

(** The body of a JSON string literal, as [JSON.stringify] writes it. *)
Fixpoint json_quote_body (s : string) : string :=
  match s with
  | EmptyString => EmptyString
  | String a rest =>
      let n := nat_of_ascii a in
      (if Ascii.eqb a dquote then String backslash q
       else if Ascii.eqb a backslash
       then String backslash (String backslash EmptyString)
       else if (n =? 8)%nat then String backslash "b"
       else if (n =? 9)%nat then String backslash "t"
       else if (n =? 10)%nat then String backslash "n"
       else if (n =? 12)%nat then String backslash "f"
       else if (n =? 13)%nat then String backslash "r"
       else if (n <? 32)%nat then
         String backslash
           ("u00" ++ String (hex_digit false (n / 16))
                       (String (hex_digit false (n mod 16)) EmptyString))
       else String a EmptyString)
      ++ json_quote_body rest
  end.

Definition json_quote (s : string) : string := q ++ json_quote_body s ++ q.

(** [JSON.stringify] of an object literal whose fields are all strings. *)
Fixpoint json_fields (fields : list (string * string)) : string :=
  match fields with
  | [] => EmptyString
  | [(k, v)] => json_quote k ++ ":" ++ json_quote v
  | (k, v) :: rest => json_quote k ++ ":" ++ json_quote v ++ "," ++ json_fields rest
  end.

Definition JSON_stringify (fields : list (string * string)) : string :=
  "{" ++ json_fields fields ++ "}".

(** ** Requests and responses *)

Definition API_BASE : string := "/api".

Definition Headers : Type := list (string * string).

(** [{...headers, name: value}] *)
Definition set_header (name value : string) (headers : Headers) : Headers :=
  (filter (fun kv => negb (fst kv =? name)) headers ++ [(name, value)])%list.

(** The second argument of [fetchJSON]. *)
Record Options : Type := {
  method : string;
  headers : Headers;
  body : option string
}.

(** What is handed to [fetch]. *)
Record Request : Type := {
  url : string;
  req_method : string;
  req_headers : Headers;
  req_body : option string
}.

(** A response as the script looks at it: [status], [statusText], the body
    read as text, and the body read as JSON ([None] when it does not
    parse).  [JSON.parse] itself is not modelled, so both readings are
    given; reading the body as text is taken to succeed. *)
Record Response : Type := {
  status : Z;
  statusText : string;
  text : string;
  json : option JValue
}.

(** [response.ok]: the status is in the range 200 to 299. *)
Definition ok (r : Response) : bool :=
  (200 <=? status r)%Z && (status r <=? 299)%Z.

(** The promise of [fetch] is rejected (no connection, a header the
    platform refuses) or fulfilled with a response. *)
Inductive FetchOutcome : Type :=
| Rejected
| Responded (r : Response).

(** src/blog/blog.js, lines 52-59: the request [fetchJSON] builds. *)
Definition fetchJSON_request (path : string) (options : Options) : Request :=
  let with_body :=
    match body options with
    | Some b => negb (b =? "")
    | None => false
    end in
  let has_content_type :=
    match assoc "Content-Type" (headers options) with
    | Some v => negb (v =? "")
    | None => false
    end in
  {| url := API_BASE ++ path;
     req_method := method options;
     req_headers :=
       if with_body && negb has_content_type
       then set_header "Content-Type" "application/json" (headers options)
       else headers options;
     req_body := body options |}.

(** [a || b] on strings *)
Definition or_else (a b : string) : string := if a =? "" then b else a.

(** src/blog/blog.js, lines 61-75: what the promise of [fetchJSON] settles
    to, given how [fetch] settled. *)
Definition fetchJSON_result (o : FetchOutcome) : Completion JValue :=
  match o with
  | Rejected => Throw TypeError
  | Responded response =>
      if (status response =? 401)%Z then Throw (UnauthorizedError "Unauthorized")
      else if negb (ok response) then
        let message :=
          or_else (text response) (or_else (statusText response) "Request failed.") in
        Throw (Error message)
      else if (status response =? 204)%Z then Normal JNull
      else match json response with
           | Some v => Normal v
           | None => Throw SyntaxError
           end
  end.

(** One of the requests joined by [Promise.all]: how it settled and when. *)
Record Settled : Type := {
  outcome : FetchOutcome;
  settledAt : nat
}.

(** The earliest rejection among the first [n] promises, if any; of two
    that settle at the same instant the one of lower index counts. *)
Fixpoint first_rejection (settled : nat -> Settled) (n : nat) : option (nat * Exn) :=
  match n with
  | O => None
  | S i =>
      let earlier := first_rejection settled i in
      match fetchJSON_result (outcome (settled i)) with
      | Normal _ => earlier
      | Throw e =>
          match earlier with
          | Some (t, e') =>
              if (t <=? settledAt (settled i))%nat then Some (t, e')
              else Some (settledAt (settled i), e)
          | None => Some (settledAt (settled i), e)
          end
      end
  end.

(** [Promise.all] over [n] calls of [fetchJSON]: rejected with the reason of
    the first promise to be rejected, fulfilled when all are. *)
Definition promise_all (n : nat) (settled : nat -> Settled) : Completion unit :=
  match first_rejection settled n with
  | Some (_, e) => Throw e
  | None => Normal tt
  end.

(** ** The page: state, storage, document *)

(** Which of the five panels carry the [hidden] class and attribute. *)
Record Hidden : Type := {
  authPanel : bool;
  signOutButton : bool;
  postForm : bool;
  adminNote : bool;
  visitorNote : bool
}.

(** The parts of the document the script reads or writes. *)
Record Dom : Type := {
  loginError : string;        (* loginError.textContent *)
  editorMessage : string;     (* editorMessage.textContent *)
  postsContainer : string;    (* postsContainer.innerHTML *)
  publishDisabled : bool;     (* publishButton.disabled *)
  clearDisabled : bool;       (* clearButton.disabled *)
  hidden : Hidden;
  username : string;          (* loginForm.username.value *)
  password : string;          (* loginForm.password.value *)
  postTitle : string;         (* postTitle.value *)
  postBody : string           (* postBody.value *)
}.

(** The global [state] object (lines 19-23), the entry of [localStorage]
    under [STORAGE_KEY] (the only one the script touches; no other page
    writes it), the document, the requests handed to [fetch] so far (latest
    first), and the date formatting of the browser: [locale v] is
    [new Date(v).toLocaleString()]. *)
Record State : Type := {
  token : JValue;
  posts : list JValue;
  authed : bool;
  storage : option string;
  dom : Dom;
  sent : list Request;
  locale : JValue -> string
}.

(** Assignments to one field.  They take the record apart once, so that a
    run of assignments stays a term of the size of the run. *)
Definition set_token (v : JValue) (st : State) : State :=
  let (_, p, a, s, d, n, l) := st in
  {| token := v; posts := p; authed := a; storage := s;
     dom := d; sent := n; locale := l |}.

Definition set_posts (ps : list JValue) (st : State) : State :=
  let (t, _, a, s, d, n, l) := st in
  {| token := t; posts := ps; authed := a; storage := s;
     dom := d; sent := n; locale := l |}.

Definition set_authed (b : bool) (st : State) : State :=
  let (t, p, _, s, d, n, l) := st in
  {| token := t; posts := p; authed := b; storage := s;
     dom := d; sent := n; locale := l |}.

Definition set_storage (v : option string) (st : State) : State :=
  let (t, p, a, _, d, n, l) := st in
  {| token := t; posts := p; authed := a; storage := v;
     dom := d; sent := n; locale := l |}.

Definition map_dom (f : Dom -> Dom) (st : State) : State :=
  let (t, p, a, s, d, n, l) := st in
  {| token := t; posts := p; authed := a; storage := s;
     dom := f d; sent := n; locale := l |}.

Definition log_request (r : Request) (st : State) : State :=
  let (t, p, a, s, d, n, l) := st in
  {| token := t; posts := p; authed := a; storage := s;
     dom := d; sent := r :: n; locale := l |}.

Definition dom_loginError (v : string) (d : Dom) : Dom :=
  let (_, em, pc, pd, cd, h, u, pw, pt, pb) := d in
  {| loginError := v; editorMessage := em; postsContainer := pc;
     publishDisabled := pd; clearDisabled := cd; hidden := h;
     username := u; password := pw; postTitle := pt; postBody := pb |}.

Definition dom_editorMessage (v : string) (d : Dom) : Dom :=
  let (le, _, pc, pd, cd, h, u, pw, pt, pb) := d in
  {| loginError := le; editorMessage := v; postsContainer := pc;
     publishDisabled := pd; clearDisabled := cd; hidden := h;
     username := u; password := pw; postTitle := pt; postBody := pb |}.

Definition dom_postsContainer (v : string) (d : Dom) : Dom :=
  let (le, em, _, pd, cd, h, u, pw, pt, pb) := d in
  {| loginError := le; editorMessage := em; postsContainer := v;
     publishDisabled := pd; clearDisabled := cd; hidden := h;
     username := u; password := pw; postTitle := pt; postBody := pb |}.

Definition dom_publishDisabled (v : bool) (d : Dom) : Dom :=
  let (le, em, pc, _, cd, h, u, pw, pt, pb) := d in
  {| loginError := le; editorMessage := em; postsContainer := pc;
     publishDisabled := v; clearDisabled := cd; hidden := h;
     username := u; password := pw; postTitle := pt; postBody := pb |}.

Definition dom_clearDisabled (v : bool) (d : Dom) : Dom :=
  let (le, em, pc, pd, _, h, u, pw, pt, pb) := d in
  {| loginError := le; editorMessage := em; postsContainer := pc;
     publishDisabled := pd; clearDisabled := v; hidden := h;
     username := u; password := pw; postTitle := pt; postBody := pb |}.

Definition dom_hidden (v : Hidden) (d : Dom) : Dom :=
  let (le, em, pc, pd, cd, _, u, pw, pt, pb) := d in
  {| loginError := le; editorMessage := em; postsContainer := pc;
     publishDisabled := pd; clearDisabled := cd; hidden := v;
     username := u; password := pw; postTitle := pt; postBody := pb |}.

(** [loginForm.reset()] and [postForm.reset()]: the fields of the form go
    back to their initial values, which are taken to be empty (the markup of
    the page is not among the sources; [post-title] and [post-body] are taken
    to be fields of [post-form]). *)
Definition dom_resetLoginForm (d : Dom) : Dom :=
  let (le, em, pc, pd, cd, h, _, _, pt, pb) := d in
  {| loginError := le; editorMessage := em; postsContainer := pc;
     publishDisabled := pd; clearDisabled := cd; hidden := h;
     username := ""; password := ""; postTitle := pt; postBody := pb |}.

Definition dom_resetPostForm (d : Dom) : Dom :=
  let (le, em, pc, pd, cd, h, u, pw, _, _) := d in
  {| loginError := le; editorMessage := em; postsContainer := pc;
     publishDisabled := pd; clearDisabled := cd; hidden := h;
     username := u; password := pw; postTitle := ""; postBody := "" |}.

(** ** Synchronous code *)

(** A piece of synchronous code: it may read and write the page, and it
    completes normally or throws; what it wrote before throwing stays. *)
Definition M (A : Type) : Type := State -> Completion A * State.

Definition ret {A} (a : A) : M A := fun st => (Normal a, st).
Definition throw {A} (e : Exn) : M A := fun st => (Throw e, st).
Definition lift {A} (c : Completion A) : M A := fun st => (c, st).
Definition update (f : State -> State) : M unit := fun st => (Normal tt, f st).
Definition update_dom (f : Dom -> Dom) : M unit := update (map_dom f).
Definition read {A} (f : State -> A) : M A := fun st => (Normal (f st), st).

Definition bind {A B} (m : M A) (k : A -> M B) : M B :=
  fun st =>
    match m st with
    | (Normal a, st') => k a st'
    | (Throw e, st') => (Throw e, st')
    end.

Notation "x <- m ;; k" := (bind m (fun x => k))
  (at level 61, m at next level, right associativity).
Notation "m ;; k" := (bind m (fun _ => k))
  (at level 61, right associativity).

(** [try { m } catch (error) { handler error }] *)
Definition try_catch {A} (m : M A) (handler : Exn -> M A) : M A :=
  fun st =>
    match m st with
    | (Normal a, st') => (Normal a, st')
    | (Throw e, st') => handler e st'
    end.

(** [try { m } finally { f }], for an [f] that may itself throw. *)
Definition finally {A} (m : M A) (f : M unit) : M A :=
  fun st =>
    match m st with
    | (c, st') =>
        match f st' with
        | (Normal _, st'') => (c, st'')
        | (Throw e, st'') => (Throw e, st'')
        end
    end.

(** ** The script: token store, session, renderer *)

(** src/blog/blog.js, lines 27-29 *)
Definition loadToken : M JValue :=
  read (fun st => match storage st with Some s => JStr s | None => JNull end).

(** src/blog/blog.js, lines 31-38.  [setItem] stores the text of its
    argument; storage itself is taken never to fail. *)
Definition saveToken (tok : JValue) : M unit :=
  (if truthy tok then
     s <- lift (toString tok) ;;
     update (set_storage (Some s))
   else update (set_storage None)) ;;
  update (set_token tok).

(** src/blog/blog.js, lines 40-49 *)
Definition authHeaders (hs : Headers) : M Headers :=
  tok <- read token ;;
  if negb (truthy tok) then ret hs
  else
    s <- lift (toString tok) ;;
    ret (set_header "Authorization" ("Bearer " ++ s) hs).

Definition placeholder : string :=
  "<div class=" ++ q ++ "post empty" ++ q
  ++ ">No posts yet. Use the editor below to add one!</div>".

(** [escapeHtml] applied to a value: anything but a string has no
    [replace] method, and the call throws. *)
Definition escapeHtml_value (v : JValue) : Completion string :=
  match v with
  | JStr s => Normal (escapeHtml s)
  | _ => Throw TypeError
  end.

(** src/blog/blog.js, lines 188-206: the fragment of one post.  The date is
    built from [post.createdAt] as it is; [new Date] can throw only where
    the conversion of that same value to text, in the template, throws too,
    so the throw is left to the template. *)
Definition renderPost (isAuthed : bool) (fmt : JValue -> string) (post : JValue)
  : Completion string :=
  cbind (getProp post "createdAt") (fun createdAt =>
  let time := fmt createdAt in
  cbind (getProp post "title") (fun title =>
  cbind (escapeHtml_value title) (fun escapedTitle =>
  cbind (getProp post "body") (fun body =>
  cbind (escapeHtml_value body) (fun escaped =>
  let escapedBody := replaceAll newline "<br/>" escaped in
  cbind (if isAuthed then
           cbind (getProp post "id") (fun id =>
           cbind (toString id) (fun id =>
           Normal ("<button class=" ++ q ++ "delete-post danger" ++ q
                   ++ " data-id=" ++ q ++ id ++ q ++ ">Delete</button>")))
         else Normal "") (fun deleteButton =>
  cbind (getProp post "id") (fun id =>
  cbind (toString id) (fun id =>
  cbind (toString createdAt) (fun datetime =>
  Normal (nl ++ "        <article class=" ++ q ++ "post" ++ q
          ++ " data-id=" ++ q ++ id ++ q ++ ">" ++ nl
          ++ "          <div class=" ++ q ++ "post-header" ++ q ++ ">" ++ nl
          ++ "            <h3>" ++ escapedTitle ++ "</h3>" ++ nl
          ++ "            " ++ deleteButton ++ nl
          ++ "          </div>" ++ nl
          ++ "          <time datetime=" ++ q ++ datetime ++ q ++ ">"
          ++ time ++ "</time>" ++ nl
          ++ "          <p>" ++ escapedBody ++ "</p>" ++ nl
          ++ "        </article>" ++ nl
          ++ "      ")))))))))).

(** [posts.map(renderPost).join("")]: the first post that throws ends it. *)
Fixpoint renderAll (isAuthed : bool) (fmt : JValue -> string) (l : list JValue)
  : Completion string :=
  match l with
  | [] => Normal ""
  | post :: rest =>
      cbind (renderPost isAuthed fmt post) (fun fragment =>
      cbind (renderAll isAuthed fmt rest) (fun more =>
      Normal (fragment ++ more)))
  end.

(** src/blog/blog.js, lines 180-207, as a function of the post sequence and
    the flag: the markup written into the container. *)
Definition renderMarkup (isAuthed : bool) (fmt : JValue -> string) (l : list JValue)
  : Completion string :=
  match l with
  | [] => Normal placeholder
  | _ :: _ => renderAll isAuthed fmt l
  end.

(** src/blog/blog.js, lines 180-216.  The listeners put on the delete
    buttons are not state of the model: a click on one of them is an event
    of the page (see [Event]). *)
Definition renderPosts : M unit :=
  fun st =>
    match renderMarkup (authed st) (locale st) (posts st) with
    | Normal markup =>
        (Normal tt, map_dom (dom_postsContainer markup) st)
    | Throw e => (Throw e, st)
    end.

(** src/blog/blog.js, lines 78-111 *)
Definition setAuthState (isAuthed : bool) : M unit :=
  update (set_authed isAuthed) ;;
  (if isAuthed then
     update_dom (dom_hidden {| authPanel := true; signOutButton := false;
                               postForm := false; adminNote := false;
                               visitorNote := true |}) ;;
     update_dom (dom_loginError "") ;;
     update_dom (dom_publishDisabled false) ;;
     update_dom (dom_clearDisabled false)
   else
     update_dom (dom_hidden {| authPanel := false; signOutButton := true;
                               postForm := true; adminNote := true;
                               visitorNote := false |}) ;;
     update_dom dom_resetLoginForm ;;
     update_dom (dom_editorMessage "") ;;
     update_dom (dom_publishDisabled false) ;;
     update_dom (dom_clearDisabled false)) ;;
  renderPosts.

(** ** Asynchronous code *)

(** An [async] function at rest: finished (with the completion its promise
    settles to), or waiting.  The continuation of a waiting function gets
    what the network answered and the state of the page at that later
    moment. *)
Inductive Susp : Type :=
| Finished (c : Completion unit) (st : State)
| AwaitFetch (st : State) (req : Request)
             (k : FetchOutcome -> State -> Susp)
| AwaitAll (st : State) (reqs : list Request)
           (k : (nat -> Settled) -> State -> Susp).

Definition Async : Type := State -> Susp.

(** Synchronous code run as (the rest of) an [async] function. *)
Definition sync (m : M unit) : Async :=
  fun st => let (c, st') := m st in Finished c st'.

(** What happens once [t] has finished. *)
Fixpoint and_then (t : Susp) (k : Completion unit -> Async) : Susp :=
  match t with
  | Finished c st => k c st
  | AwaitFetch st req f => AwaitFetch st req (fun o st' => and_then (f o st') k)
  | AwaitAll st reqs f => AwaitAll st reqs (fun s st' => and_then (f s st') k)
  end.

(** [await a(); b()] *)
Definition seqA (a b : Async) : Async :=
  fun st =>
    and_then (a st) (fun c => match c with
                              | Normal _ => b
                              | Throw e => Finished (Throw e)
                              end).

(** [try { await a() } catch (error) { handler error }] *)
Definition try_catchA (a : Async) (handler : Exn -> M unit) : Async :=
  fun st =>
    and_then (a st) (fun c => match c with
                              | Normal _ => Finished (Normal tt)
                              | Throw e => sync (handler e)
                              end).

(** [await fetchJSON(path, options)] followed by [k]: the request goes out
    now, [k] runs when the promise has settled. *)
Definition fetchJSON (path : string) (options : Options)
           (k : Completion JValue -> Async) : Async :=
  fun st =>
    let req := fetchJSON_request path options in
    AwaitFetch (log_request req st) req (fun o => k (fetchJSON_result o)).

(** *** Load posts: src/blog/blog.js, lines 160-178 *)

Definition session_expired : string := "Session expired. Please sign in again.".

Definition loadPosts_catch (error : Exn) : M unit :=
  if instanceofUnauthorized error then
    saveToken JNull ;;
    setAuthState false ;;
    update_dom (dom_loginError session_expired)
  else update_dom (dom_editorMessage "Unable to load posts at the moment.").

(** Lines 166-167 and the [catch], once the call has settled. *)
Definition loadPosts_resume (result : Completion JValue) : M unit :=
  try_catch
    (result <- lift result ;;
     field <- lift (getProp result "posts") ;;
     update (set_posts (match field with JArr items => items | _ => [] end)) ;;
     renderPosts)
    loadPosts_catch.

Definition loadPosts : Async :=
  fun st =>
    match authHeaders [] st with
    | (Normal hs, st1) =>
        fetchJSON "/posts" {| method := "GET"; headers := hs; body := None |}
                  (fun result => sync (loadPosts_resume result)) st1
    | (Throw e, st1) => sync (loadPosts_catch e) st1
    end.

(** *** Login: src/blog/blog.js, lines 113-142 *)

Definition handleLogin_catch (error : Exn) : M unit :=
  if instanceofUnauthorized error then
    update_dom (dom_loginError "Credentials were incorrect.")
  else update_dom (dom_loginError "Unable to sign in. Please try again.").

Definition handleLogin_resume (result : Completion JValue) : Async :=
  try_catchA
    (seqA (sync (result <- lift result ;;
                 tok <- lift (getProp result "token") ;;
                 saveToken tok ;;
                 setAuthState true))
          (seqA loadPosts
                (sync (update_dom
                         (dom_editorMessage "Welcome back! You're signed in.")))))
    handleLogin_catch.

Definition handleLogin : Async :=
  fun st =>
    let st := map_dom (dom_loginError "") st in
    let username := trim (username (dom st)) in
    let password := password (dom st) in
    if (username =? "") || (password =? "") then
      sync (update_dom (dom_loginError "Enter both username and password.")) st
    else
      fetchJSON "/login"
        {| method := "POST";
           headers := [("Content-Type", "application/json")];
           body := Some (JSON_stringify [("username", username);
                                         ("password", password)]) |}
        handleLogin_resume st.

(** *** Sign out: src/blog/blog.js, lines 144-158 *)

Definition handleSignOut_rest : Async :=
  seqA (sync (saveToken JNull ;; setAuthState false)) loadPosts.

Definition handleSignOut : Async :=
  fun st =>
    if truthy (token st) then
      match authHeaders [("Content-Type", "application/json")] st with
      | (Normal hs, st1) =>
          fetchJSON "/logout" {| method := "POST"; headers := hs; body := None |}
                    (fun _ => handleSignOut_rest) st1
      | (Throw _, st1) => handleSignOut_rest st1
      end
    else handleSignOut_rest st.

(** *** Publish: src/blog/blog.js, lines 218-259 *)

Definition handleCreatePost_catch (error : Exn) : M unit :=
  if instanceofUnauthorized error then
    saveToken JNull ;;
    setAuthState false ;;
    update_dom (dom_loginError session_expired)
  else update_dom (dom_editorMessage "Unable to publish. Please try again.").

Definition handleCreatePost_finally : M unit :=
  update_dom (dom_publishDisabled false).

(** Lines 243-246, the [catch] and the [finally], once the call has
    settled. *)
Definition handleCreatePost_resume (result : Completion JValue) : M unit :=
  finally
    (try_catch
       (newPost <- lift result ;;
        update (fun st => set_posts (newPost :: posts st) st) ;;
        update_dom dom_resetPostForm ;;
        update_dom (dom_editorMessage "Post published.") ;;
        renderPosts)
       handleCreatePost_catch)
    handleCreatePost_finally.

Definition handleCreatePost : Async :=
  fun st =>
    if negb (authed st) then
      sync (update_dom (dom_editorMessage "Sign in to publish posts.")) st
    else
      let st := map_dom (dom_publishDisabled true) st in
      let title := trim (postTitle (dom st)) in
      let body := trim (postBody (dom st)) in
      if (title =? "") || (body =? "") then
        sync (update_dom
                (dom_editorMessage "Add both a title and content before publishing.") ;;
              update_dom (dom_publishDisabled false)) st
      else
        match authHeaders [("Content-Type", "application/json")] st with
        | (Normal hs, st1) =>
            fetchJSON "/posts"
              {| method := "POST"; headers := hs;
                 body := Some (JSON_stringify [("title", title); ("body", body)]) |}
              (fun result => sync (handleCreatePost_resume result)) st1
        | (Throw e, st1) =>
            sync (finally (handleCreatePost_catch e) handleCreatePost_finally) st1
        end.

(** *** Delete one: src/blog/blog.js, lines 261-297 *)

Definition handleDeletePost_catch (error : Exn) : M unit :=
  if instanceofUnauthorized error then
    saveToken JNull ;;
    setAuthState false ;;
    update_dom (dom_loginError session_expired)
  else update_dom (dom_editorMessage "Unable to delete post.").

(** [posts.filter((post) => post.id !== id)]: a post goes when its [id] is
    the string [id]; reading [id] off null or undefined throws. *)
Fixpoint filter_out (id : string) (l : list JValue) : Completion (list JValue) :=
  match l with
  | [] => Normal []
  | post :: rest =>
      cbind (getProp post "id") (fun v =>
      cbind (filter_out id rest) (fun kept =>
      Normal (match v with
              | JStr s => if s =? id then kept else post :: kept
              | _ => post :: kept
              end)))
  end.

(** Lines 283-285 and the [catch], once the call has settled. *)
Definition handleDeletePost_resume (id : string) (result : Completion JValue)
  : M unit :=
  try_catch
    (_ <- lift result ;;
     current <- read posts ;;
     kept <- lift (filter_out id current) ;;
     update (set_posts kept) ;;
     update_dom (dom_editorMessage "Post deleted.") ;;
     renderPosts)
    handleDeletePost_catch.

(** [id] is [button.dataset.id] of the button clicked ([None] when it has no
    such attribute), [confirmed] the answer to [window.confirm].  The
    [disabled] flag of the button is not kept: the button is part of the
    markup in [postsContainer]. *)
Definition handleDeletePost (id : option string) (confirmed : bool) : Async :=
  fun st =>
    if negb (authed st) then
      sync (update_dom (dom_editorMessage "Sign in to manage posts.")) st
    else
      match id with
      | None => Finished (Normal tt) st
      | Some id =>
          if id =? "" then Finished (Normal tt) st
          else if negb confirmed then Finished (Normal tt) st
          else
            match authHeaders [] st with
            | (Normal hs, st1) =>
                fetchJSON ("/posts/" ++ encodeURIComponent id)
                  {| method := "DELETE"; headers := hs; body := None |}
                  (fun result => sync (handleDeletePost_resume id result)) st1
            | (Throw e, st1) => sync (handleDeletePost_catch e) st1
            end
      end.

(** *** Export: src/blog/blog.js, lines 308-328.  The file handed to the
    browser is not part of the page and is not kept. *)
Definition handleExport : Async :=
  fun st =>
    match posts st with
    | [] => sync (update_dom (dom_editorMessage "There are no posts to export.")) st
    | _ :: _ => sync (update_dom (dom_editorMessage "Export downloaded.")) st
    end.

(** *** Delete all: src/blog/blog.js, lines 330-370 *)

Definition handleClear_catch (error : Exn) : M unit :=
  if instanceofUnauthorized error then
    saveToken JNull ;;
    setAuthState false ;;
    update_dom (dom_loginError session_expired)
  else update_dom (dom_editorMessage "Unable to clear posts.").

Definition handleClear_finally : M unit :=
  update_dom (dom_clearDisabled false).

(** Lines 348-353: one call of [fetchJSON] per post, in order; each hands
    its request to [fetch] before the next post is looked at. *)
Fixpoint deleteRequests (l : list JValue) : M (list Request) :=
  match l with
  | [] => ret []
  | post :: rest =>
      id <- lift (getProp post "id") ;;
      id <- lift (toString id) ;;
      hs <- authHeaders [] ;;
      let req := fetchJSON_request ("/posts/" ++ encodeURIComponent id)
                   {| method := "DELETE"; headers := hs; body := None |} in
      update (log_request req) ;;
      more <- deleteRequests rest ;;
      ret (req :: more)
  end.

(** Lines 355-357, the [catch] and the [finally], once [Promise.all] has
    settled. *)
Definition handleClear_resume (joined : Completion unit) : M unit :=
  finally
    (try_catch
       (lift joined ;;
        update (set_posts []) ;;
        update_dom (dom_editorMessage "All posts removed.") ;;
        renderPosts)
       handleClear_catch)
    handleClear_finally.

Definition handleClear (confirmed : bool) : Async :=
  fun st =>
    match posts st with
    | [] => sync (update_dom (dom_editorMessage "Nothing to clear.")) st
    | _ :: _ =>
        if negb (authed st) then
          sync (update_dom (dom_editorMessage "Sign in to remove posts.")) st
        else if negb confirmed then Finished (Normal tt) st
        else
          let st := map_dom (dom_clearDisabled true) st in
          match deleteRequests (posts st) st with
          | (Normal reqs, st1) =>
              AwaitAll st1 reqs
                (fun settled =>
                   sync (handleClear_resume (promise_all (length reqs) settled)))
          | (Throw e, st1) =>
              sync (finally (handleClear_catch e) handleClear_finally) st1
          end
    end.

(** *** Start of the script: src/blog/blog.js, lines 390-392 *)

Definition startup : Async :=
  seqA (sync (tok <- loadToken ;;
              saveToken tok ;;
              tok <- read token ;;
              setAuthState (truthy tok)))
       loadPosts.

(** The page as the script finds it: the [state] of lines 19-23, whatever is
    in storage, the document as loaded, nothing sent. *)
Definition initial (stored : option string) (page : Dom)
           (fmt : JValue -> string) : State :=
  {| token := JNull; posts := []; authed := false; storage := stored;
     dom := page; sent := []; locale := fmt |}.

(** ** The event loop of the page *)

Inductive Field : Type := Username | Password | PostTitle | PostBody.

(** The user types into one of the four fields. *)
Definition dom_field (f : Field) (value : string) (d : Dom) : Dom :=
  let (le, em, pc, pd, cd, h, u, pw, pt, pb) := d in
  {| loginError := le; editorMessage := em; postsContainer := pc;
     publishDisabled := pd; clearDisabled := cd; hidden := h;
     username := match f with Username => value | _ => u end;
     password := match f with Password => value | _ => pw end;
     postTitle := match f with PostTitle => value | _ => pt end;
     postBody := match f with PostBody => value | _ => pb end |}.

(** What the user can do (lines 384-388 and 213 register the handlers). *)
Inductive Event : Type :=
| SubmitLogin
| ClickSignOut
| SubmitPost
| ClickDelete (id : option string) (confirmed : bool)
| ClickExport
| ClickClear (confirmed : bool)
| Typing (f : Field) (value : string).

Definition handle (ev : Event) : Async :=
  match ev with
  | SubmitLogin => handleLogin
  | ClickSignOut => handleSignOut
  | SubmitPost => handleCreatePost
  | ClickDelete id confirmed => handleDeletePost id confirmed
  | ClickExport => handleExport
  | ClickClear confirmed => handleClear confirmed
  | Typing f value => sync (update_dom (dom_field f value))
  end.

(** A handler that waits for the network. *)
Inductive Pending : Type :=
| PendingFetch (req : Request) (k : FetchOutcome -> State -> Susp)
| PendingAll (reqs : list Request) (k : (nat -> Settled) -> State -> Susp).

Record System : Type := {
  now : State;
  waiting : list Pending
}.

(** A handler has run as far as it can: the page is as it left it, and it
    joins the waiting ones unless it has finished.  A promise rejected with
    nobody to catch it changes nothing more. *)
Definition settle (t : Susp) (others : list Pending) : System :=
  match t with
  | Finished _ st => {| now := st; waiting := others |}
  | AwaitFetch st req k => {| now := st; waiting := PendingFetch req k :: others |}
  | AwaitAll st reqs k => {| now := st; waiting := PendingAll reqs k :: others |}
  end.

Section EventLoop.

(** Which answers the server may give to which request. *)
Variable allowed : Request -> FetchOutcome -> Prop.

Definition all_allowed (reqs : list Request) (settled : nat -> Settled) : Prop :=
  forall i req, nth_error reqs i = Some req -> allowed req (outcome (settled i)).

(** One turn of the loop: an event starts its handler, or the network
    answers one of the waiting handlers. *)
Inductive step : System -> System -> Prop :=
| step_event ev sys :
    step sys (settle (handle ev (now sys)) (waiting sys))
| step_fetch sys before req k after o :
    waiting sys = (before ++ PendingFetch req k :: after)%list ->
    allowed req o ->
    step sys (settle (k o (now sys)) (before ++ after)%list)
| step_all sys before reqs k after settled :
    waiting sys = (before ++ PendingAll reqs k :: after)%list ->
    all_allowed reqs settled ->
    step sys (settle (k settled (now sys)) (before ++ after)%list).

(** The states of the page after the script has started on [initial]. *)
Inductive reachable (stored : option string) (page : Dom) (fmt : JValue -> string)
  : System -> Prop :=
| reach_start :
    reachable stored page fmt (settle (startup (initial stored page fmt)) [])
| reach_step sys sys' :
    reachable stored page fmt sys -> step sys sys' ->
    reachable stored page fmt sys'.

(** [t] keeps [I], at every point where it rests, provided [I] holds
    whenever it is resumed. *)
Inductive preserves (I : State -> Prop) : Susp -> Prop :=
| preserves_finished c st :
    I st -> preserves I (Finished c st)
| preserves_fetch st req k :
    I st ->
    (forall o st', allowed req o -> I st' -> preserves I (k o st')) ->
    preserves I (AwaitFetch st req k)
| preserves_all st reqs k :
    I st ->
    (forall settled st', all_allowed reqs settled -> I st' ->
                         preserves I (k settled st')) ->
    preserves I (AwaitAll st reqs k).

Definition pending_preserves (I : State -> Prop) (p : Pending) : Prop :=
  match p with
  | PendingFetch req k =>
      forall o st', allowed req o -> I st' -> preserves I (k o st')
  | PendingAll reqs k =>
      forall settled st', all_allowed reqs settled -> I st' ->
                          preserves I (k settled st')
  end.

End EventLoop.

(** Any answer at all. *)
Definition any_answer (_ : Request) (_ : FetchOutcome) : Prop := True.

(** The server keeps the contract of [POST /login]: a successful answer that
    has a [token] has a non-empty string there. *)
Definition login_contract (req : Request) (o : FetchOutcome) : Prop :=
  url req = API_BASE ++ "/login" ->
  forall v tok,
    fetchJSON_result o = Normal v -> getProp v "token" = Normal tok ->
    exists s, tok = JStr s /\ s <> "".

(** The session invariant: the flag is set only while [state.token] is a
    non-empty string and the token store holds that same string. *)
Definition session_ok (st : State) : Prop :=
  authed st = true ->
  exists s, s <> "" /\ token st = JStr s /\ storage st = Some s.

(** The session is cleared. *)
Definition session_cleared (st : State) : Prop :=
  storage st = None /\ token st = JNull /\ authed st = false.

(** ** Post records *)

(** A post as the data model has it: an object whose [id], [title], [body]
    and [createdAt] are strings. *)
Definition is_post (v : JValue) : bool :=
  match v with
  | JObj fields =>
      match assoc "id" fields, assoc "title" fields,
            assoc "body" fields, assoc "createdAt" fields with
      | Some (JStr _), Some (JStr _), Some (JStr _), Some (JStr _) => true
      | _, _, _, _ => false
      end
  | _ => false
  end.

Definition post_record (id title body createdAt : string) : JValue :=
  JObj [("id", JStr id); ("title", JStr title);
        ("body", JStr body); ("createdAt", JStr createdAt)].


(** The answer has status 401. *)
Definition unauthorized (o : FetchOutcome) : Prop :=
  exists r, o = Responded r /\ status r = 401%Z.

(** The delete button of a post, when the session is open (line 193). *)
Definition button_markup (isAuthed : bool) (id : string) : string :=
  if isAuthed
  then "<button class=" ++ q ++ "delete-post danger" ++ q
       ++ " data-id=" ++ q ++ id ++ q ++ ">Delete</button>"
  else "".

(** The three statements every [catch] block runs on an unauthorized
    answer (lines 171-173, 250-252, 290-292, 361-363). *)
Definition end_session : M unit :=
  saveToken JNull ;;
  setAuthState false ;;
  update_dom (dom_loginError session_expired).

Definition posts_ok (st : State) : Prop :=
  Forall (fun p => is_post p = true) (posts st).

(** The three parts of the page the session invariant speaks of. *)
Definition session (st : State) : JValue * bool * option string :=
  (token st, authed st, storage st).

(** Synchronous code that keeps [I]. *)
Definition keeps (I : State -> Prop) {A : Type} (m : M A) : Prop :=
  forall st, I st -> I (snd (m st)).

(** The server keeps the contract of [/posts]: a successful answer to [GET]
    that has an array as its [posts] has post records there, and a
    successful answer to [POST] is a post record. *)
Definition posts_contract (req : Request) (o : FetchOutcome) : Prop :=
  url req = API_BASE ++ "/posts" ->
  forall v,
    fetchJSON_result o = Normal v ->
    (req_method req = "GET" ->
     forall items, getProp v "posts" = Normal (JArr items) ->
                   Forall (fun p => is_post p = true) items)
    /\ (req_method req = "POST" -> is_post v = true).

(** Both contracts together. *)
Definition server_contract (req : Request) (o : FetchOutcome) : Prop :=
  login_contract req o /\ posts_contract req o.

(** The page and the handlers that wait are all in order. *)
Definition system_ok (allowed : Request -> FetchOutcome -> Prop)
           (I : State -> Prop) (sys : System) : Prop :=
  I (now sys) /\ Forall (pending_preserves allowed I) (waiting sys).

(** ** A sample page, for the worked examples *)

Definition blank_page : Dom :=
  {| loginError := ""; editorMessage := ""; postsContainer := "";
     publishDisabled := false; clearDisabled := false;
     hidden := {| authPanel := false; signOutButton := true; postForm := true;
                  adminNote := true; visitorNote := false |};
     username := ""; password := ""; postTitle := ""; postBody := "" |}.

Definition sample_locale (v : JValue) : string :=
  match v with
  | JStr s => s
  | _ => "Invalid Date"
  end.

Definition sample_post : JValue :=
  post_record "1" "T" "B" "2024-01-01T00:00:00Z".

(** An editor is signed in and one post is loaded. *)
Definition signed_in : State :=
  {| token := JStr "secret"; posts := [sample_post]; authed := true;
     storage := Some "secret"; dom := blank_page; sent := [];
     locale := sample_locale |}.

Definition answer (code : Z) (reason content : string) (parsed : option JValue)
  : FetchOutcome :=
  Responded {| status := code; statusText := reason; text := content;
               json := parsed |}.

(** The page of an editor who comes back with a stored token, once the
    script has started. *)
Definition started : System :=
  settle (startup (initial (Some "secret") blank_page sample_locale)) [].

(** Two successful answers without any field: a body that is the JSON
    null, and no body at all. *)
Definition null_body : FetchOutcome := answer 200 "OK" "null" (Some JNull).
Definition no_content : FetchOutcome := answer 204 "No Content" "" None.




(** The editor has filled in the post form. *)
Definition drafting : State :=
  map_dom (dom_field PostBody "B") (map_dom (dom_field PostTitle "T") signed_in).

(** Only white space in the title. *)
Definition blank_title : State :=
  map_dom (dom_field PostBody "B")
          (map_dom (dom_field PostTitle ("  " ++ nl)) signed_in).

Definition second_post : JValue :=
  post_record "2" "Second" "More" "2024-01-02T00:00:00Z".

Definition third_post : JValue :=
  post_record "3" "Third" "Most" "2024-01-03T00:00:00Z".

(** Three posts are loaded. *)
Definition three_posts : State :=
  set_posts [third_post; second_post; sample_post] signed_in.


(** ** Further notions, for the rest of the script *)

(** The token store and [state.token] agree: the store holds the text of a
    truthy token, and is empty when the token is falsy. *)
Definition store_agrees (st : State) : Prop :=
  match storage st with
  | Some s => truthy (token st) = true /\ toString (token st) = Normal s
  | None => truthy (token st) = false
  end.


(** The five characters [escapeHtml] replaces. *)
Definition special (a : ascii) : bool :=
  existsb (Ascii.eqb a) ["&"; "<"; ">"; dquote; "'"]%char.

Fixpoint has_special (s : string) : bool :=
  match s with
  | EmptyString => false
  | String a rest => special a || has_special rest
  end.

(** The request for the posts, as a visitor and as an editor. *)
Definition visitor_request : Request :=
  {| url := "/api/posts"; req_method := "GET"; req_headers := [];
     req_body := None |}.

Definition editor_request (tok : string) : Request :=
  {| url := "/api/posts"; req_method := "GET";
     req_headers := [("Authorization", "Bearer " ++ tok)]; req_body := None |}.

(** Which panels [setAuthState] hides. *)
Definition panels (isAuthed : bool) : Hidden :=
  {| authPanel := isAuthed; signOutButton := negb isAuthed;
     postForm := negb isAuthed; adminNote := negb isAuthed;
     visitorNote := isAuthed |}.

(** Text that is safe inside one segment of a path: no slash, question
    mark, number sign or space. *)
Definition path_safe (s : string) : bool :=
  negb (occurs "/" s) && negb (occurs "?" s) && negb (occurs "#" s)
  && negb (occurs " " s).

(** Induction on a value that reaches the elements of arrays and the fields
    of objects. *)
Section ValueInduction.

Variable P : JValue -> Prop.
Hypothesis on_undefined : P JUndefined.
Hypothesis on_null : P JNull.
Hypothesis on_bool : forall b, P (JBool b).
Hypothesis on_num : forall text, P (JNum text).
Hypothesis on_str : forall s, P (JStr s).
Hypothesis on_arr : forall items, Forall P items -> P (JArr items).
Hypothesis on_obj :
  forall fields, Forall (fun kv => P (snd kv)) fields -> P (JObj fields).

Fixpoint value_induction (v : JValue) : P v :=
  match v with
  | JUndefined => on_undefined
  | JNull => on_null
  | JBool b => on_bool b
  | JNum text => on_num text
  | JStr s => on_str s
  | JArr items =>
      on_arr items
        ((fix each (l : list JValue) : Forall P l :=
            match l with
            | [] => Forall_nil P
            | x :: rest => Forall_cons x (value_induction x) (each rest)
            end) items)
  | JObj fields =>
      on_obj fields
        ((fix each (l : list (string * JValue))
            : Forall (fun kv => P (snd kv)) l :=
            match l with
            | [] => Forall_nil _
            | kv :: rest =>
                Forall_cons kv (value_induction (snd kv)) (each rest)
            end) fields)
  end.

End ValueInduction.


(** The publish call, for a token that is the string [tok]. *)
Definition publish_request (tok title body : string) : Request :=
  {| url := "/api/posts"; req_method := "POST";
     req_headers := [("Content-Type", "application/json");
                     ("Authorization", "Bearer " ++ tok)];
     req_body := Some (JSON_stringify [("title", title); ("body", body)]) |}.

(** The delete call for the post whose identifier is [id], for a token that
    is the string [tok]. *)
Definition delete_request (tok id : string) : Request :=
  {| url := "/api/posts/" ++ encodeURIComponent id; req_method := "DELETE";
     req_headers := [("Authorization", "Bearer " ++ tok)];
     req_body := None |}.
(** ** Theorems *)

Lemma string_app_assoc (s t u : string) : (s ++ t) ++ u = s ++ (t ++ u).
Proof. induction s; simpl; congruence. Qed.

Lemma replaceAll_app c rep s t :
  replaceAll c rep (s ++ t) = replaceAll c rep s ++ replaceAll c rep t.
Proof.
  induction s as [|a s IH]; simpl; [reflexivity|].
  destruct (Ascii.eqb a c); simpl; rewrite IH; [|reflexivity].
  now rewrite string_app_assoc.
Qed.

Lemma escapeHtml_cons a s :
  escapeHtml (String a s) = escape_char a ++ escapeHtml s.
Proof.
  unfold escapeHtml.
  change (String a s) with (String a EmptyString ++ s).
  rewrite !replaceAll_app. f_equal.
  unfold escape_char. cbn [replaceAll].
  destruct (Ascii.eqb a "&"); [reflexivity|]. cbn [replaceAll].
  destruct (Ascii.eqb a "<"); [reflexivity|]. cbn [replaceAll].
  destruct (Ascii.eqb a ">"); [reflexivity|]. cbn [replaceAll].
  destruct (Ascii.eqb a dquote); [reflexivity|]. cbn [replaceAll].
  destruct (Ascii.eqb a "'"); reflexivity.
Qed.

Lemma occurs_app c s t : occurs c (s ++ t) = occurs c s || occurs c t.
Proof. induction s as [|a s IH]; simpl; [reflexivity|]. now rewrite IH, orb_assoc. Qed.

(** The five cases of [escape_char], and the plain one. *)
Ltac escape_cases a :=
  unfold escape_char;
  destruct (Ascii.eqb a "&") eqn:?;
  [| destruct (Ascii.eqb a "<") eqn:?;
     [| destruct (Ascii.eqb a ">") eqn:?;
        [| destruct (Ascii.eqb a dquote) eqn:?;
           [| destruct (Ascii.eqb a "'") eqn:? ]]]].

Lemma escape_char_clean (c a : ascii) :
  c <> "&"%char -> In c ["<"; ">"; dquote; "'"]%char ->
  occurs c (escape_char a) = false.
Proof.
  intros Hamp Hin.
  assert (Hc : forall b, Ascii.eqb b c = true -> In b ["<"; ">"; dquote; "'"]%char).
  { intros b Hb. apply Ascii.eqb_eq in Hb. now subst. }
  escape_cases a; simpl;
    try (destruct Hin as [<-|[<-|[<-|[<-|[]]]]]; reflexivity).
  rewrite orb_false_r. destruct (Ascii.eqb a c) eqn:E; [|reflexivity].
  apply Ascii.eqb_eq in E. subst c.
  destruct Hin as [E|[E|[E|[E|[]]]]]; rewrite <- E in *;
    rewrite Ascii.eqb_refl in *; discriminate.
Qed.

Lemma escapeHtml_no_char (c : ascii) value :
  c <> "&"%char -> In c ["<"; ">"; dquote; "'"]%char ->
  occurs c (escapeHtml value) = false.
Proof.
  intros Hamp Hin. induction value as [|a s IH]; [reflexivity|].
  rewrite escapeHtml_cons, occurs_app, IH, orb_false_r.
  now apply escape_char_clean.
Qed.

Lemma escapeHtml_amp value : amp_opens_entity (escapeHtml value) = true.
Proof.
  induction value as [|a s IH]; [reflexivity|].
  rewrite escapeHtml_cons.
  escape_cases a; cbn -[escapeHtml]; try exact IH.
  match goal with H : Ascii.eqb a "&" = false |- _ => rewrite H end.
  exact IH.
Qed.

Lemma decode_escape_fuel value :
  forall fuel, String.length (escapeHtml value) <= fuel ->
               decode_entities_fuel fuel (escapeHtml value) = value.
Proof.
  induction value as [|a s IH]; intros fuel Hlen.
  - destruct fuel; reflexivity.
  - rewrite escapeHtml_cons in *.
    destruct fuel as [|fuel].
    { revert Hlen. escape_cases a; cbn; lia. }
    revert Hlen. escape_cases a; cbn -[escapeHtml]; intros Hlen;
      repeat match goal with
             | H : Ascii.eqb a _ = true |- _ => apply Ascii.eqb_eq in H; subst a
             end;
      try (f_equal; apply IH; lia).
    match goal with H : Ascii.eqb a "&" = false |- _ => rewrite H end.
    f_equal; apply IH; lia.
Qed.

(** C2. Whatever the input, the text [escapeHtml] returns holds none of the
    characters less-than, greater-than, double quote and apostrophe, holds an
    ampersand only where it opens one of the five entity forms, and decoding
    those entity forms gives the input back. *)
Theorem escapeHtml_entity_safe_roundtrip (value : string) :
  entity_safe (escapeHtml value) = true
  /\ decode_entities (escapeHtml value) = value.
Proof.
  split.
  - unfold entity_safe.
    rewrite !escapeHtml_no_char, escapeHtml_amp; try reflexivity;
      try discriminate; simpl; auto 6.
  - apply decode_escape_fuel. apply Nat.le_refl.
Qed.

(** *** Sanity checks of the built-in functions *)

Example trim_unicode :
  trim (" " ++ nl ++ bytes [194; 160] ++ "a b" ++ bytes [226; 128; 137; 9]) = "a b".
Proof. reflexivity. Qed.

Example encodeURIComponent_bytes :
  encodeURIComponent ("a b/" ++ bytes [195; 169] ++ "'") = "a%20b%2F%C3%A9'".
Proof. reflexivity. Qed.

Example toString_array :
  toString (JArr [JNum "1"; JNull; JArr [JStr "a"; JStr "b"]; JObj []])
  = Normal "1,,a,b,[object Object]".
Proof. reflexivity. Qed.

(** *** The API client *)

Lemma string_eqb_empty (s : string) : (s =? "") = false <-> s <> "".
Proof. now rewrite <- String.eqb_neq. Qed.

(** C5. A response whose status is neither 401 nor in the success range
    makes [fetchJSON] fail with a plain [Error]; its message is the body
    text when that is not empty, else the status text when that is not
    empty, else the text [Request failed.] *)
Theorem fetchJSON_error_message (response : Response) :
  status response <> 401%Z -> ok response = false ->
  (text response <> "" ->
   fetchJSON_result (Responded response) = Throw (Error (text response)))
  /\ (text response = "" -> statusText response <> "" ->
      fetchJSON_result (Responded response) = Throw (Error (statusText response)))
  /\ (text response = "" -> statusText response = "" ->
      fetchJSON_result (Responded response) = Throw (Error "Request failed.")).
Proof.
  intros H401 Hok. unfold fetchJSON_result.
  apply Z.eqb_neq in H401. rewrite H401, Hok. cbn [negb]. unfold or_else.
  repeat split.
  - intros Ht. apply string_eqb_empty in Ht. now rewrite Ht.
  - intros -> Hs. apply string_eqb_empty in Hs. cbn. now rewrite Hs.
  - intros -> ->. reflexivity.
Qed.

Lemma fetchJSON_error_message_witness :
  fetchJSON_result (answer 500 "Internal Server Error" "" None)
  = Throw (Error "Internal Server Error").
Proof.
  apply (fetchJSON_error_message
           {| status := 500; statusText := "Internal Server Error";
              text := ""; json := None |});
    [discriminate | reflexivity | reflexivity | discriminate].
Defined.

(** *** The renderer *)

Lemma renderPost_post isAuthed fmt p :
  is_post p = true -> exists m, renderPost isAuthed fmt p = Normal m.
Proof.
  destruct p as [| | | | | |fields]; try discriminate.
  unfold is_post, renderPost, getProp.
  destruct (assoc "id" fields) as [[]|]; try discriminate.
  destruct (assoc "title" fields) as [[]|]; try discriminate.
  destruct (assoc "body" fields) as [[]|]; try discriminate.
  destruct (assoc "createdAt" fields) as [[]|]; try discriminate.
  intros _. destruct isAuthed; cbn [cbind escapeHtml_value toString];
    eexists; reflexivity.
Qed.

Lemma renderAll_posts isAuthed fmt l :
  Forall (fun p => is_post p = true) l ->
  exists m, renderAll isAuthed fmt l = Normal m.
Proof.
  induction 1 as [|p l Hp _ [m Hm]]; cbn [renderAll]; [eexists; reflexivity|].
  destruct (renderPost_post isAuthed fmt p Hp) as [m' ->].
  rewrite Hm. eexists; reflexivity.
Qed.

Lemma renderMarkup_posts isAuthed fmt l :
  Forall (fun p => is_post p = true) l ->
  exists m, renderMarkup isAuthed fmt l = Normal m.
Proof.
  intros H. destruct l; [eexists; reflexivity|]. now apply renderAll_posts.
Qed.

(** C8. For the empty post sequence the markup is the fixed placeholder,
    whether the flag is set or not, and that is what [renderPosts] writes
    into the container. *)
Theorem render_empty_is_placeholder :
  placeholder
  = "<div class=" ++ q ++ "post empty" ++ q
    ++ ">No posts yet. Use the editor below to add one!</div>"
  /\ forall (isAuthed : bool) (fmt : JValue -> string),
      renderMarkup isAuthed fmt [] = Normal placeholder
      /\ forall st,
          let st0 := set_authed isAuthed (set_posts [] st) in
          renderPosts st0
          = (Normal tt, map_dom (dom_postsContainer placeholder) st0).
Proof.
  split; [reflexivity|]. intros isAuthed fmt. split; [reflexivity|].
  intros [t p a s d n l]. reflexivity.
Qed.

Lemma string_app_nil_r (s : string) : s ++ "" = s.
Proof. induction s; simpl; congruence. Qed.

Lemma renderMarkup_post_record isAuthed fmt id title body createdAt :
  renderMarkup isAuthed fmt [post_record id title body createdAt]
  = Normal (nl ++ "        <article class=" ++ q ++ "post" ++ q
            ++ " data-id=" ++ q ++ id ++ q ++ ">" ++ nl
            ++ "          <div class=" ++ q ++ "post-header" ++ q ++ ">" ++ nl
            ++ "            <h3>" ++ escapeHtml title ++ "</h3>" ++ nl
            ++ "            " ++ button_markup isAuthed id ++ nl
            ++ "          </div>" ++ nl
            ++ "          <time datetime=" ++ q ++ createdAt ++ q ++ ">"
            ++ fmt (JStr createdAt) ++ "</time>" ++ nl
            ++ "          <p>" ++ replaceAll newline "<br/>" (escapeHtml body)
            ++ "</p>" ++ nl
            ++ "        </article>" ++ nl
            ++ "      ").
Proof.
  unfold renderMarkup, renderAll, renderPost, post_record, getProp, button_markup.
  cbn [assoc String.eqb Ascii.eqb Bool.eqb cbind escapeHtml_value toString].
  destruct isAuthed; cbn [cbind]; now rewrite string_app_nil_r.
Qed.

(** C9. Of the four fields of a post only [title] and [body] go through
    [escapeHtml]; [id] and [createdAt] stand in the markup as they are,
    between the quotes of the [data-id] and [datetime] attributes.  So the
    post whose [id] is [a], a double quote, [b] is rendered with that double
    quote inside the attribute, although [escapeHtml] would have changed
    it. *)
Theorem render_escapes_title_and_body_only :
  (forall isAuthed fmt id title body createdAt,
      renderMarkup isAuthed fmt [post_record id title body createdAt]
      = Normal (nl ++ "        <article class=" ++ q ++ "post" ++ q
                ++ " data-id=" ++ q ++ id ++ q ++ ">" ++ nl
                ++ "          <div class=" ++ q ++ "post-header" ++ q ++ ">" ++ nl
                ++ "            <h3>" ++ escapeHtml title ++ "</h3>" ++ nl
                ++ "            " ++ button_markup isAuthed id ++ nl
                ++ "          </div>" ++ nl
                ++ "          <time datetime=" ++ q ++ createdAt ++ q ++ ">"
                ++ fmt (JStr createdAt) ++ "</time>" ++ nl
                ++ "          <p>" ++ replaceAll newline "<br/>" (escapeHtml body)
                ++ "</p>" ++ nl
                ++ "        </article>" ++ nl
                ++ "      "))
  /\ (let id := "a" ++ q ++ "b" in
      let post := post_record id "T" "B" "2024-01-01T00:00:00Z" in
      is_post post = true
      /\ occurs dquote id = true
      /\ escapeHtml id = "a&quot;b"
      /\ forall isAuthed fmt, exists before after,
          renderMarkup isAuthed fmt [post]
          = Normal (before ++ " data-id=" ++ q ++ id ++ q ++ ">" ++ after)).
Proof.
  split; [exact renderMarkup_post_record|].
  cbv zeta. repeat split.
  intros isAuthed fmt. rewrite renderMarkup_post_record.
  eexists (nl ++ "        <article class=" ++ q ++ "post" ++ q), _.
  rewrite !string_app_assoc. reflexivity.
Qed.

(** *** The workflows *)

(** Unfolds the plumbing of synchronous code. *)
Ltac run_sync :=
  unfold sync, finally, try_catch, bind, lift, ret, read, update_dom, update;
  cbn beta iota.

Lemma end_session_run st :
  posts_ok st ->
  exists st', end_session st = (Normal tt, st')
    /\ session_cleared st' /\ loginError (dom st') = session_expired
    /\ posts st' = posts st /\ sent st' = sent st.
Proof.
  destruct st as [t p a s d n l]. unfold posts_ok. cbn [posts]. intros Hp.
  destruct (renderMarkup_posts false l p Hp) as [m Hm].
  unfold end_session, saveToken, setAuthState, renderPosts. run_sync.
  cbn -[renderMarkup]. rewrite Hm.
  eexists. split; [reflexivity|]. destruct d. cbn. repeat split.
Qed.

Lemma end_session_clears st :
  session_cleared (snd (end_session st))
  /\ posts (snd (end_session st)) = posts st
  /\ sent (snd (end_session st)) = sent st.
Proof.
  destruct st as [t p a s d n l].
  unfold end_session, saveToken, setAuthState, renderPosts. run_sync.
  cbn -[renderMarkup].
  destruct (renderMarkup _ _ _); cbn; repeat split.
Qed.

Lemma fetchJSON_result_unauthorized o :
  unauthorized o -> fetchJSON_result o = Throw (UnauthorizedError "Unauthorized").
Proof. intros (r & -> & H). unfold fetchJSON_result. now rewrite H. Qed.

Lemma sync_not_await m st st1 req k : sync m st <> AwaitFetch st1 req k.
Proof. unfold sync. destruct (m st). discriminate. Qed.

Lemma loadPosts_await st st1 req k :
  loadPosts st = AwaitFetch st1 req k ->
  k = (fun o => sync (loadPosts_resume (fetchJSON_result o))).
Proof.
  unfold loadPosts, fetchJSON.
  destruct (authHeaders [] st) as [[hs|e] st2]; intros H.
  - now injection H as _ _ <-.
  - now apply sync_not_await in H.
Qed.

Lemma handleCreatePost_await st st1 req k :
  handleCreatePost st = AwaitFetch st1 req k ->
  k = (fun o => sync (handleCreatePost_resume (fetchJSON_result o))).
Proof.
  unfold handleCreatePost, fetchJSON.
  destruct (negb (authed st)); [intros H; now apply sync_not_await in H|].
  destruct (_ || _); [intros H; now apply sync_not_await in H|].
  destruct (authHeaders _ _) as [[hs|e] st2]; intros H.
  - now injection H as _ _ <-.
  - now apply sync_not_await in H.
Qed.


Lemma loadPosts_resume_unauthorized m st :
  loadPosts_resume (Throw (UnauthorizedError m)) st = end_session st.
Proof. reflexivity. Qed.

Lemma handleCreatePost_resume_unauthorized m st :
  handleCreatePost_resume (Throw (UnauthorizedError m)) st
  = finally end_session handleCreatePost_finally st.
Proof. reflexivity. Qed.

Lemma handleDeletePost_resume_unauthorized id m st :
  handleDeletePost_resume id (Throw (UnauthorizedError m)) st = end_session st.
Proof. reflexivity. Qed.




(** C6. When the publish request succeeds, the record the server returned
    becomes the head of the post sequence and the sequence as it was follows
    it, unchanged. *)
Theorem publish_prepends st st1 req k o newPost st' :
  handleCreatePost st = AwaitFetch st1 req k ->
  fetchJSON_result o = Normal newPost ->
  exists c st'',
    k o st' = Finished c st''
    /\ posts st'' = newPost :: posts st'
    /\ hd_error (posts st'') = Some newPost
    /\ tl (posts st'') = posts st'.
Proof.
  intros Hawait Ho.
  apply handleCreatePost_await in Hawait. subst k. cbv beta. rewrite Ho.
  destruct st' as [t p a s d n l].
  unfold handleCreatePost_resume, handleCreatePost_finally, renderPosts. run_sync.
  cbn -[renderMarkup].
  destruct (renderMarkup _ _ _) as [m|e].
  - destruct d; cbn. do 2 eexists. split; [reflexivity|]. cbn. auto.
  - unfold handleCreatePost_catch.
    destruct (instanceofUnauthorized e).
    + fold end_session.
      match goal with |- context [end_session ?s] =>
        destruct (end_session_clears s) as (_ & Hp & _);
        destruct (end_session s) as [c' [t' p' a' s' d' n' l']] end.
      cbn in Hp. subst p'.
      destruct c'; do 2 eexists; (split; [reflexivity|]); cbn; auto.
    + destruct d; cbn. do 2 eexists. split; [reflexivity|]. cbn. auto.
Qed.

(** C7. When the title or the body is empty after trimming, the publish
    handler finishes at once: nothing is handed to [fetch] and the post
    sequence is the same as before. *)
Theorem publish_needs_title_and_body st :
  trim (postTitle (dom st)) = "" \/ trim (postBody (dom st)) = "" ->
  exists st',
    handleCreatePost st = Finished (Normal tt) st'
    /\ sent st' = sent st
    /\ posts st' = posts st.
Proof.
  destruct st as [t p a s d n l]. destruct d as [le em pc pd cd h u pw pt pb].
  cbn [dom postTitle postBody].
  intros H. unfold handleCreatePost. cbn [authed].
  destruct (negb a).
  - eexists. split; [reflexivity|]. split; reflexivity.
  - cbn [dom map_dom postTitle postBody dom_publishDisabled].
    match goal with |- context [?x || ?y] =>
      assert (E : x || y = true)
        by (destruct H as [-> | ->]; [reflexivity | apply orb_true_r]) end.
    rewrite E. eexists. split; [reflexivity|]. split; reflexivity.
Qed.

Lemma loadPosts_resume_success v st :
  exists c st',
    loadPosts_resume (Normal v) st = (c, st')
    /\ (v <> JNull -> v <> JUndefined ->
        (forall items, getProp v "posts" = Normal (JArr items) -> posts st' = items)
        /\ ((forall items, getProp v "posts" <> Normal (JArr items)) -> posts st' = []))
    /\ (v = JNull ->
        c = Normal tt /\ posts st' = posts st
        /\ editorMessage (dom st') = "Unable to load posts at the moment.").
Proof.
  destruct st as [t p a s d n l].
  unfold loadPosts_resume, renderPosts. run_sync.
  destruct (getProp v "posts") as [field|e] eqn:Hfield.
  - cbn -[renderMarkup].
    set (new := match field with JArr items => items | _ => [] end).
    assert (Hnew :
              (forall items, Normal field = Normal (JArr items) -> new = items)
              /\ ((forall items, Normal field <> Normal (JArr items)) -> new = [])).
    { split.
      - intros items [= ->]. reflexivity.
      - intros Hno. subst new. destruct field as [| | | | |items|]; try reflexivity.
        now destruct (Hno items). }
    assert (Hnull : v <> JNull) by (intros ->; discriminate).
    clearbody new.
    destruct (renderMarkup _ _ _) as [m|e].
    + destruct d. do 2 eexists. split; [reflexivity|]. cbn.
      split; [auto|]. intros ->. now destruct Hnull.
    + unfold loadPosts_catch. destruct (instanceofUnauthorized e).
      * fold end_session.
        match goal with |- context [end_session ?s] =>
          destruct (end_session_clears s) as (_ & Hp & _);
          destruct (end_session s) as [c' s'] end.
        cbn in Hp. do 2 eexists. split; [reflexivity|].
        rewrite Hp. split; [auto|]. intros ->. now destruct Hnull.
      * destruct d. do 2 eexists. split; [reflexivity|]. cbn.
        split; [auto|]. intros ->. now destruct Hnull.
  - destruct v as [| | | | | |fields]; try discriminate; cbn in Hfield.
    + injection Hfield as <-. destruct d. cbn. do 2 eexists. split; [reflexivity|].
      split; [intros _ H; now destruct H|discriminate].
    + injection Hfield as <-. destruct d. cbn. do 2 eexists. split; [reflexivity|].
      split; [intros H; now destruct H|]. intros _. cbn. auto.
    + destruct (assoc "posts" fields); discriminate.
Qed.

(** C10, as amended. When the call of load posts succeeds with a value that
    is neither null nor undefined, the post sequence becomes the [posts]
    field of that value if the field is an array, and the empty sequence if
    the field is missing or anything else.  When the call succeeds with null
    (status 204, or a body that is the JSON null), reading [posts] throws:
    the workflow shows the load-failure message and keeps the sequence. *)
Theorem loadPosts_replaces_sequence st st1 req k o v st' :
  loadPosts st = AwaitFetch st1 req k ->
  fetchJSON_result o = Normal v ->
  exists c st'',
    k o st' = Finished c st''
    /\ (v <> JNull -> v <> JUndefined ->
        (forall items, getProp v "posts" = Normal (JArr items) -> posts st'' = items)
        /\ ((forall items, getProp v "posts" <> Normal (JArr items)) -> posts st'' = []))
    /\ (v = JNull ->
        c = Normal tt /\ posts st'' = posts st'
        /\ editorMessage (dom st'') = "Unable to load posts at the moment.").
Proof.
  intros Hawait Ho. apply loadPosts_await in Hawait. subst k. cbv beta. rewrite Ho.
  destruct (loadPosts_resume_success v st') as (c & st'' & Hrun & H).
  exists c, st''. unfold sync. rewrite Hrun. auto.
Qed.

Lemma authHeaders_state hs st : snd (authHeaders hs st) = st.
Proof.
  unfold authHeaders. run_sync.
  destruct (negb (truthy (token st))); [reflexivity|].
  destruct (toString (token st)); reflexivity.
Qed.



Lemma first_rejection_none settled n :
  (forall i, i < n -> is_normal (fetchJSON_result (outcome (settled i))) = true) ->
  first_rejection settled n = None.
Proof.
  induction n as [|n IH]; intros Hall; [reflexivity|].
  cbn [first_rejection]. specialize (Hall n (Nat.lt_succ_diag_r n)) as Hn.
  destruct (fetchJSON_result (outcome (settled n))); [|discriminate].
  apply IH. intros i Hi. apply Hall. lia.
Qed.

Lemma sync_not_await_all m st st1 reqs k : sync m st <> AwaitAll st1 reqs k.
Proof. unfold sync. destruct (m st). discriminate. Qed.

Lemma handleClear_await confirmed st st1 reqs k :
  handleClear confirmed st = AwaitAll st1 reqs k ->
  k = (fun settled => sync (handleClear_resume (promise_all (length reqs) settled)))
  /\ deleteRequests (posts st) (map_dom (dom_clearDisabled true) st)
     = (Normal reqs, st1).
Proof.
  unfold handleClear.
  destruct (posts st) as [|p ps] eqn:Hposts;
    [intros H; now apply sync_not_await_all in H|].
  destruct (negb (authed st)); [intros H; now apply sync_not_await_all in H|].
  destruct (negb confirmed); [discriminate|].
  replace (posts (map_dom (dom_clearDisabled true) st)) with (p :: ps)
    by (rewrite <- Hposts; now destruct st).
  destruct (deleteRequests _ _) as [[reqs'|e] st2]; intros H.
  - injection H as <- <- <-. auto.
  - now apply sync_not_await_all in H.
Qed.



Lemma clear_empties_on_success confirmed st st1 reqs k settled st' :
  handleClear confirmed st = AwaitAll st1 reqs k ->
  (forall i, i < length reqs ->
             is_normal (fetchJSON_result (outcome (settled i))) = true) ->
  exists c st'', k settled st' = Finished c st'' /\ posts st'' = [].
Proof.
  intros Hawait Hall.
  apply handleClear_await in Hawait. destruct Hawait as [-> _].
  unfold promise_all. rewrite (first_rejection_none _ _ Hall).
  destruct st' as [t p a s d n l]. destruct d.
  unfold sync, handleClear_resume, handleClear_finally, renderPosts. run_sync.
  cbn. do 2 eexists. split; reflexivity.
Qed.

(** *** Invariants of the page *)

Section Keeps.

Variable I : State -> Prop.

Lemma keeps_ret {A} (a : A) : keeps I (ret a).
Proof. intros st H. exact H. Qed.

Lemma keeps_lift {A} (c : Completion A) : keeps I (lift c).
Proof. intros st H. exact H. Qed.

Lemma keeps_read {A} (f : State -> A) : keeps I (read f).
Proof. intros st H. exact H. Qed.

Lemma keeps_authHeaders hs : keeps I (authHeaders hs).
Proof. intros st H. now rewrite authHeaders_state. Qed.

Lemma keeps_bind {A B} (m : M A) (k : A -> M B) :
  keeps I m -> (forall a, keeps I (k a)) -> keeps I (bind m k).
Proof.
  intros Hm Hk st H. unfold bind. specialize (Hm st H).
  destruct (m st) as [[a|e] st1]; cbn in *; [now apply Hk|assumption].
Qed.

Lemma keeps_try_catch {A} (m : M A) h :
  keeps I m -> (forall e, keeps I (h e)) -> keeps I (try_catch m h).
Proof.
  intros Hm Hh st H. unfold try_catch. specialize (Hm st H).
  destruct (m st) as [[a|e] st1]; cbn in *; [assumption|now apply Hh].
Qed.

Lemma keeps_finally {A} (m : M A) f :
  keeps I m -> keeps I f -> keeps I (finally m f).
Proof.
  intros Hm Hf st H. unfold finally. specialize (Hm st H).
  destruct (m st) as [c st1]. cbn in Hm. specialize (Hf st1 Hm).
  destruct (f st1) as [[[]|e] st2]; exact Hf.
Qed.

(** An invariant that does not look at the document is kept by all code
    that only writes the document. *)
Hypothesis I_map_dom : forall f st, I st -> I (map_dom f st).

Lemma keeps_update_dom f : keeps I (update_dom f).
Proof. intros st H. now apply I_map_dom. Qed.

Lemma keeps_renderPosts : keeps I renderPosts.
Proof.
  intros st H. unfold renderPosts.
  destruct (renderMarkup _ _ _); [now apply I_map_dom|exact H].
Qed.

(** The four [catch] blocks that end the session. *)
Hypothesis I_end_session : keeps I end_session.

Lemma keeps_loadPosts_catch e : keeps I (loadPosts_catch e).
Proof.
  unfold loadPosts_catch. destruct (instanceofUnauthorized e);
    [exact I_end_session | apply keeps_update_dom].
Qed.

Lemma keeps_handleCreatePost_catch e : keeps I (handleCreatePost_catch e).
Proof.
  unfold handleCreatePost_catch. destruct (instanceofUnauthorized e);
    [exact I_end_session | apply keeps_update_dom].
Qed.

Lemma keeps_handleDeletePost_catch e : keeps I (handleDeletePost_catch e).
Proof.
  unfold handleDeletePost_catch. destruct (instanceofUnauthorized e);
    [exact I_end_session | apply keeps_update_dom].
Qed.

Lemma keeps_handleClear_catch e : keeps I (handleClear_catch e).
Proof.
  unfold handleClear_catch. destruct (instanceofUnauthorized e);
    [exact I_end_session | apply keeps_update_dom].
Qed.

Lemma keeps_handleLogin_catch e : keeps I (handleLogin_catch e).
Proof.
  unfold handleLogin_catch. destruct (instanceofUnauthorized e);
    apply keeps_update_dom.
Qed.

End Keeps.

Create HintDb keeps.

#[local] Hint Resolve keeps_ret keeps_lift keeps_read keeps_authHeaders
  keeps_update_dom keeps_renderPosts keeps_loadPosts_catch
  keeps_handleCreatePost_catch keeps_handleDeletePost_catch
  keeps_handleClear_catch keeps_handleLogin_catch : keeps.

(** Takes a piece of synchronous code apart along its binds, [try] blocks
    and [finally] blocks. *)
Ltac keeps_tac :=
  repeat first
    [ progress eauto with keeps
    | apply keeps_finally
    | apply keeps_try_catch
    | apply keeps_bind
    | intro ].

Section Invariant.

Variable allowed : Request -> FetchOutcome -> Prop.
Variable I : State -> Prop.

Hypothesis I_map_dom : forall f st, I st -> I (map_dom f st).
Hypothesis I_log_request : forall r st, I st -> I (log_request r st).
Hypothesis I_end_session : keeps I end_session.
Hypothesis I_sign_out : keeps I (saveToken JNull ;; setAuthState false).
Hypothesis I_startup :
  forall stored page fmt,
    I (snd ((tok <- loadToken ;;
             saveToken tok ;;
             tok <- read token ;;
             setAuthState (truthy tok)) (initial stored page fmt))).
Hypothesis I_login :
  forall hs b o,
    allowed (fetchJSON_request "/login"
               {| method := "POST"; headers := hs; body := Some b |}) o ->
    keeps I (result <- lift (fetchJSON_result o) ;;
             tok <- lift (getProp result "token") ;;
             saveToken tok ;;
             setAuthState true).
Hypothesis I_load :
  forall hs o,
    allowed (fetchJSON_request "/posts"
               {| method := "GET"; headers := hs; body := None |}) o ->
    keeps I (loadPosts_resume (fetchJSON_result o)).
Hypothesis I_publish :
  forall hs b o,
    allowed (fetchJSON_request "/posts"
               {| method := "POST"; headers := hs; body := Some b |}) o ->
    keeps I (handleCreatePost_resume (fetchJSON_result o)).
Hypothesis I_delete : forall id result, keeps I (handleDeletePost_resume id result).
Hypothesis I_clear : forall joined, keeps I (handleClear_resume joined).

Lemma preserves_sync m st :
  keeps I m -> I st -> preserves allowed I (sync m st).
Proof.
  intros Hm H. unfold sync. specialize (Hm st H).
  destruct (m st). now constructor.
Qed.

Lemma preserves_and_then t k :
  preserves allowed I t ->
  (forall c st, I st -> preserves allowed I (k c st)) ->
  preserves allowed I (and_then t k).
Proof.
  intros Ht Hk. induction Ht as [c st H|st req f H _ IH|st reqs f H _ IH];
    cbn [and_then]; [now apply Hk| |]; constructor; auto.
Qed.

Lemma preserves_seqA a b st :
  preserves allowed I (a st) ->
  (forall st', I st' -> preserves allowed I (b st')) ->
  preserves allowed I (seqA a b st).
Proof.
  intros Ha Hb. unfold seqA. apply preserves_and_then; [assumption|].
  intros [[]|e] st' H; [now apply Hb|now constructor].
Qed.

Lemma preserves_try_catchA a h st :
  preserves allowed I (a st) -> (forall e, keeps I (h e)) ->
  preserves allowed I (try_catchA a h st).
Proof.
  intros Ha Hh. unfold try_catchA. apply preserves_and_then; [assumption|].
  intros [[]|e] st' H; [now constructor|now apply preserves_sync].
Qed.

Lemma preserves_fetchJSON path options k st :
  I st ->
  (forall o st', allowed (fetchJSON_request path options) o ->
                 I st' -> preserves allowed I (k (fetchJSON_result o) st')) ->
  preserves allowed I (fetchJSON path options k st).
Proof.
  intros H Hk. unfold fetchJSON. constructor; [|assumption].
  now apply I_log_request.
Qed.

(** Cases on a call of [authHeaders], which leaves the page as it is. *)
Ltac on_authHeaders :=
  match goal with
  | |- context [authHeaders ?hs ?s] =>
      let Hst := fresh "Hst" in
      pose proof (authHeaders_state hs s) as Hst;
      destruct (authHeaders hs s) as [[? | ?] ?]; cbn [snd] in Hst; subst
  end.

Lemma preserves_loadPosts st : I st -> preserves allowed I (loadPosts st).
Proof.
  intros H. unfold loadPosts. on_authHeaders.
  - apply preserves_fetchJSON; [assumption|]. intros o st' Ho H'.
    apply preserves_sync; [exact (I_load _ o Ho)|assumption].
  - apply preserves_sync; [|assumption]. now apply keeps_loadPosts_catch.
Qed.

Lemma preserves_handleLogin st : I st -> preserves allowed I (handleLogin st).
Proof.
  intros H. unfold handleLogin.
  destruct (_ || _).
  { apply preserves_sync; [now apply keeps_update_dom|now apply I_map_dom]. }
  apply preserves_fetchJSON; [now apply I_map_dom|]. intros o st' Ho H'.
  unfold handleLogin_resume.
  apply preserves_try_catchA; [|intros e; now apply keeps_handleLogin_catch].
  apply preserves_seqA.
  - apply preserves_sync; [exact (I_login _ _ o Ho)|assumption].
  - intros st2 H2. apply preserves_seqA; [now apply preserves_loadPosts|].
    intros st3 H3. apply preserves_sync; [now apply keeps_update_dom|assumption].
Qed.

Lemma preserves_handleSignOut_rest st :
  I st -> preserves allowed I (handleSignOut_rest st).
Proof.
  intros H. unfold handleSignOut_rest.
  apply preserves_seqA; [|apply preserves_loadPosts].
  now apply preserves_sync.
Qed.

Lemma preserves_handleSignOut st :
  I st -> preserves allowed I (handleSignOut st).
Proof.
  intros H. unfold handleSignOut.
  destruct (truthy (token st)); [|now apply preserves_handleSignOut_rest].
  on_authHeaders.
  - apply preserves_fetchJSON; [assumption|]. intros o st' _ H'.
    now apply preserves_handleSignOut_rest.
  - now apply preserves_handleSignOut_rest.
Qed.

Lemma preserves_handleCreatePost st :
  I st -> preserves allowed I (handleCreatePost st).
Proof.
  intros H. unfold handleCreatePost.
  destruct (negb (authed st)).
  { apply preserves_sync; [now apply keeps_update_dom|assumption]. }
  pose proof (I_map_dom (dom_publishDisabled true) st H) as H1.
  destruct (_ || _).
  { apply preserves_sync; [|assumption].
    apply keeps_bind; intros; now apply keeps_update_dom. }
  on_authHeaders.
  - apply preserves_fetchJSON; [assumption|]. intros o st' Ho H'.
    apply preserves_sync; [exact (I_publish _ _ o Ho)|assumption].
  - apply preserves_sync; [|assumption].
    apply keeps_finally; [now apply keeps_handleCreatePost_catch|].
    now apply keeps_update_dom.
Qed.

Lemma preserves_handleDeletePost id confirmed st :
  I st -> preserves allowed I (handleDeletePost id confirmed st).
Proof.
  intros H. unfold handleDeletePost.
  destruct (negb (authed st)).
  { apply preserves_sync; [now apply keeps_update_dom|assumption]. }
  destruct id as [id|]; [|now constructor].
  destruct (id =? ""); [now constructor|].
  destruct (negb confirmed); [now constructor|].
  on_authHeaders.
  - apply preserves_fetchJSON; [assumption|]. intros o st' _ H'.
    apply preserves_sync; [apply I_delete|assumption].
  - apply preserves_sync; [|assumption]. now apply keeps_handleDeletePost_catch.
Qed.

Lemma keeps_deleteRequests l : keeps I (deleteRequests l).
Proof.
  induction l as [|post rest IH]; intros st H; [exact H|].
  cbn [deleteRequests]. run_sync.
  destruct (getProp post "id") as [id|e]; [|exact H].
  destruct (toString id) as [s|e]; [|exact H].
  on_authHeaders; [|exact H].
  match goal with |- context [deleteRequests rest ?s] =>
    specialize (IH s (I_log_request _ _ H));
    destruct (deleteRequests rest s) as [[more|e] st3] end; exact IH.
Qed.

Lemma preserves_handleClear confirmed st :
  I st -> preserves allowed I (handleClear confirmed st).
Proof.
  intros H. unfold handleClear.
  destruct (posts st).
  { apply preserves_sync; [now apply keeps_update_dom|assumption]. }
  destruct (negb (authed st)).
  { apply preserves_sync; [now apply keeps_update_dom|assumption]. }
  destruct (negb confirmed); [now constructor|].
  pose proof (I_map_dom (dom_clearDisabled true) st H) as H1.
  match goal with |- context [deleteRequests ?l ?s] =>
    pose proof (keeps_deleteRequests l s H1) as H2;
    destruct (deleteRequests l s) as [[reqs|e] st1] end; cbn [snd] in H2.
  - constructor; [assumption|]. intros settled st' _ H'.
    apply preserves_sync; [apply I_clear|assumption].
  - apply preserves_sync; [|assumption].
    apply keeps_finally; [now apply keeps_handleClear_catch|].
    now apply keeps_update_dom.
Qed.

Lemma preserves_handleExport st : I st -> preserves allowed I (handleExport st).
Proof.
  intros H. unfold handleExport.
  destruct (posts st); (apply preserves_sync; [now apply keeps_update_dom|assumption]).
Qed.

Lemma preserves_handle ev st : I st -> preserves allowed I (handle ev st).
Proof.
  intros H. destruct ev; cbn [handle].
  - now apply preserves_handleLogin.
  - now apply preserves_handleSignOut.
  - now apply preserves_handleCreatePost.
  - now apply preserves_handleDeletePost.
  - now apply preserves_handleExport.
  - now apply preserves_handleClear.
  - apply preserves_sync; [now apply keeps_update_dom|assumption].
Qed.

Lemma preserves_startup stored page fmt :
  preserves allowed I (startup (initial stored page fmt)).
Proof.
  unfold startup. apply preserves_seqA; [|apply preserves_loadPosts].
  unfold sync. pose proof (I_startup stored page fmt) as H.
  match goal with |- context [let (_, _) := ?m in _] => destruct m end.
  now constructor.
Qed.

Lemma settle_ok t others :
  preserves allowed I t -> Forall (pending_preserves allowed I) others ->
  system_ok allowed I (settle t others).
Proof.
  intros Ht Ho. destruct Ht; cbn [settle]; split; cbn; auto.
Qed.

Lemma step_ok sys sys' :
  system_ok allowed I sys -> step allowed sys sys' -> system_ok allowed I sys'.
Proof.
  intros [Hnow Hwait] Hstep.
  destruct Hstep as [ev sys|sys before req k after o Hw Ho
                    |sys before reqs k after settled Hw Ho].
  - apply settle_ok; [now apply preserves_handle|assumption].
  - rewrite Hw in Hwait. apply Forall_app in Hwait. destruct Hwait as [Hb Ha].
    apply Forall_cons_iff in Ha. destruct Ha as [Hk Ha].
    apply settle_ok; [now apply Hk|]. apply Forall_app. auto.
  - rewrite Hw in Hwait. apply Forall_app in Hwait. destruct Hwait as [Hb Ha].
    apply Forall_cons_iff in Ha. destruct Ha as [Hk Ha].
    apply settle_ok; [now apply Hk|]. apply Forall_app. auto.
Qed.

(** An invariant of the pieces is an invariant of the page. *)
Lemma reachable_invariant stored page fmt sys :
  reachable allowed stored page fmt sys -> system_ok allowed I sys.
Proof.
  induction 1 as [|sys sys' _ IH Hstep].
  - apply settle_ok; [apply preserves_startup|constructor].
  - eapply step_ok; eauto.
Qed.

End Invariant.


(** A stricter server reaches no more states. *)
Lemma reachable_weaken (stricter allowed : Request -> FetchOutcome -> Prop)
      stored page fmt sys :
  (forall req o, stricter req o -> allowed req o) ->
  reachable stricter stored page fmt sys ->
  reachable allowed stored page fmt sys.
Proof.
  intros Hsub. induction 1 as [|sys sys' _ IH Hstep]; [constructor|].
  apply (reach_step allowed stored page fmt sys sys' IH).
  destruct Hstep as [ev sys|sys before req k after o Hw Ho
                    |sys before reqs k after settled Hw Ho].
  - constructor.
  - apply (step_fetch allowed sys before req k after o Hw). now apply Hsub.
  - apply (step_all allowed sys before reqs k after settled Hw).
    intros i req Hreq. apply Hsub. now apply Ho.
Qed.

(** *** The session invariant *)

Lemma session_ok_same st st' :
  session st' = session st -> session_ok st -> session_ok st'.
Proof.
  unfold session, session_ok. intros [= -> -> ->]. auto.
Qed.

Lemma session_ok_cleared st : session_cleared st -> session_ok st.
Proof. intros (_ & _ & Ha) H. congruence. Qed.

Lemma session_ok_map_dom f st : session_ok st -> session_ok (map_dom f st).
Proof. apply session_ok_same. now destruct st. Qed.

Lemma session_ok_log_request r st : session_ok st -> session_ok (log_request r st).
Proof. apply session_ok_same. now destruct st. Qed.

Lemma session_ok_end_session : keeps session_ok end_session.
Proof. intros st _. apply session_ok_cleared. apply end_session_clears. Qed.

Lemma keeps_set_posts (f : State -> list JValue) :
  keeps session_ok (update (fun st => set_posts (f st) st)).
Proof. intros st. apply session_ok_same. now destruct st. Qed.

#[local] Hint Resolve session_ok_map_dom session_ok_end_session
  keeps_set_posts : keeps.

Lemma session_ok_loadPosts_resume r : keeps session_ok (loadPosts_resume r).
Proof. unfold loadPosts_resume. keeps_tac. Qed.

Lemma session_ok_handleCreatePost_resume r :
  keeps session_ok (handleCreatePost_resume r).
Proof. unfold handleCreatePost_resume, handleCreatePost_finally. keeps_tac. Qed.

Lemma session_ok_handleDeletePost_resume id r :
  keeps session_ok (handleDeletePost_resume id r).
Proof. unfold handleDeletePost_resume. keeps_tac. Qed.

Lemma session_ok_handleClear_resume r : keeps session_ok (handleClear_resume r).
Proof. unfold handleClear_resume, handleClear_finally. keeps_tac. Qed.

Lemma signOut_clears st :
  session_cleared (snd ((saveToken JNull ;; setAuthState false) st)).
Proof.
  destruct st as [t p a s d n l].
  unfold saveToken, setAuthState, renderPosts. run_sync.
  cbn -[renderMarkup]. destruct (renderMarkup _ _ _); cbn; repeat split.
Qed.

Lemma session_ok_login o :
  (forall v tok,
      fetchJSON_result o = Normal v -> getProp v "token" = Normal tok ->
      exists s, tok = JStr s /\ s <> "") ->
  keeps session_ok
        (result <- lift (fetchJSON_result o) ;;
         tok <- lift (getProp result "token") ;;
         saveToken tok ;;
         setAuthState true).
Proof.
  intros Hc st H. destruct st as [t p a s d n l]. run_sync.
  destruct (fetchJSON_result o) as [v|e]; [|exact H].
  destruct (getProp v "token") as [tok|e] eqn:Htok; [|exact H].
  destruct (Hc v tok eq_refl Htok) as (s' & -> & Hne).
  unfold saveToken, setAuthState, renderPosts. run_sync.
  apply string_eqb_empty in Hne. cbn -[renderMarkup]. rewrite Hne.
  cbn -[renderMarkup].
  destruct (renderMarkup _ _ _); cbn; intros _; exists s';
    (split; [now apply string_eqb_empty|split; reflexivity]).
Qed.

Lemma session_ok_startup stored page fmt :
  session_ok
    (snd ((tok <- loadToken ;;
           saveToken tok ;;
           tok <- read token ;;
           setAuthState (truthy tok)) (initial stored page fmt))).
Proof.
  unfold initial, loadToken, saveToken, setAuthState, renderPosts. run_sync.
  destruct page. destruct stored as [s|]; cbn [storage truthy].
  - destruct (s =? "") eqn:E; cbn; rewrite ?E; cbn.
    + intros [=].
    + intros _. exists s. now rewrite <- string_eqb_empty.
  - cbn. intros [=].
Qed.

Lemma reachable_session_ok stored page fmt sys :
  reachable login_contract stored page fmt sys -> session_ok (now sys).
Proof.
  intros H.
  apply (reachable_invariant login_contract session_ok) in H; [apply H|..].
  - exact session_ok_map_dom.
  - exact session_ok_log_request.
  - exact session_ok_end_session.
  - intros st _. apply session_ok_cleared, signOut_clears.
  - exact session_ok_startup.
  - intros hs b o Ho. apply session_ok_login. apply Ho. reflexivity.
  - intros hs o _. apply session_ok_loadPosts_resume.
  - intros hs b o _. apply session_ok_handleCreatePost_resume.
  - exact session_ok_handleDeletePost_resume.
  - exact session_ok_handleClear_resume.
Qed.

(** *** The posts in memory are post records *)

Lemma posts_ok_same st st' : posts st' = posts st -> posts_ok st -> posts_ok st'.
Proof. unfold posts_ok. now intros ->. Qed.

Lemma posts_ok_map_dom f st : posts_ok st -> posts_ok (map_dom f st).
Proof. apply posts_ok_same. now destruct st. Qed.

Lemma posts_ok_log_request r st : posts_ok st -> posts_ok (log_request r st).
Proof. apply posts_ok_same. now destruct st. Qed.

Lemma posts_ok_end_session : keeps posts_ok end_session.
Proof. intros st. apply posts_ok_same. apply end_session_clears. Qed.

Lemma posts_ok_set_posts l :
  Forall (fun p => is_post p = true) l -> keeps posts_ok (update (set_posts l)).
Proof. intros Hl st _. unfold posts_ok. now destruct st. Qed.

Lemma filter_out_posts id l kept :
  filter_out id l = Normal kept ->
  Forall (fun p => is_post p = true) l ->
  Forall (fun p => is_post p = true) kept.
Proof.
  revert kept. induction l as [|post rest IH]; intros kept.
  - intros [= <-] _. constructor.
  - cbn [filter_out]. destruct (getProp post "id") as [v|e]; [|discriminate].
    cbn [cbind]. destruct (filter_out id rest) as [kept'|e]; [|discriminate].
    cbn [cbind]. intros [= <-] Hall.
    apply Forall_cons_iff in Hall. destruct Hall as [Hpost Hrest].
    specialize (IH kept' eq_refl Hrest).
    destruct v; try (now constructor).
    destruct (_ =? _); [assumption|now constructor].
Qed.

#[local] Hint Resolve posts_ok_map_dom posts_ok_end_session : keeps.

Lemma posts_ok_loadPosts_resume hs o :
  posts_contract (fetchJSON_request "/posts"
                    {| method := "GET"; headers := hs; body := None |}) o ->
  keeps posts_ok (loadPosts_resume (fetchJSON_result o)).
Proof.
  intros Ho. unfold loadPosts_resume. apply keeps_try_catch; [|keeps_tac].
  destruct (fetchJSON_result o) as [v|e] eqn:Hv; [|intros st H; exact H].
  intros st H. run_sync.
  destruct (getProp v "posts") as [field|e] eqn:Hfield; [|exact H].
  assert (Hitems : Forall (fun p => is_post p = true)
                          match field with JArr items => items | _ => [] end).
  { destruct field; try constructor.
    now apply (proj1 (Ho eq_refl v Hv) eq_refl). }
  match goal with |- context [renderPosts ?s] =>
    assert (H1 : posts_ok s) by (unfold posts_ok; now destruct st);
    pose proof (keeps_renderPosts posts_ok posts_ok_map_dom s H1) as H2;
    destruct (renderPosts s) end; exact H2.
Qed.

Lemma posts_ok_handleCreatePost_resume hs b o :
  posts_contract (fetchJSON_request "/posts"
                    {| method := "POST"; headers := hs; body := Some b |}) o ->
  keeps posts_ok (handleCreatePost_resume (fetchJSON_result o)).
Proof.
  intros Ho. unfold handleCreatePost_resume, handleCreatePost_finally.
  apply keeps_finally; [|keeps_tac]. apply keeps_try_catch; [|keeps_tac].
  destruct (fetchJSON_result o) as [v|e] eqn:Hv; [|intros st H; exact H].
  intros st H.
  change (posts_ok
            (snd ((update (fun st => set_posts (v :: posts st) st) ;;
                   update_dom dom_resetPostForm ;;
                   update_dom (dom_editorMessage "Post published.") ;;
                   renderPosts) st))).
  revert st H. apply keeps_bind; [|keeps_tac].
  intros st H. unfold posts_ok in *. destruct st as [t p a s d n l]. cbn in *.
  constructor; [|assumption]. now apply (proj2 (Ho eq_refl v Hv)).
Qed.

Lemma posts_ok_handleDeletePost_resume id r :
  keeps posts_ok (handleDeletePost_resume id r).
Proof.
  unfold handleDeletePost_resume. apply keeps_try_catch; [|keeps_tac].
  apply keeps_bind; [keeps_tac|intros _].
  intros st H. run_sync.
  destruct (filter_out id (posts st)) as [kept|e] eqn:Hkept; [|exact H].
  apply filter_out_posts in Hkept; [|exact H].
  match goal with |- context [renderPosts ?s] =>
    assert (H1 : posts_ok s) by (unfold posts_ok; now destruct st);
    pose proof (keeps_renderPosts posts_ok posts_ok_map_dom s H1) as H2;
    destruct (renderPosts s) end; exact H2.
Qed.

Lemma posts_ok_handleClear_resume r : keeps posts_ok (handleClear_resume r).
Proof.
  unfold handleClear_resume, handleClear_finally.
  apply keeps_finally; [|keeps_tac]. apply keeps_try_catch; [|keeps_tac].
  apply keeps_bind; [keeps_tac|intros _].
  apply keeps_bind; [|keeps_tac]. apply posts_ok_set_posts. constructor.
Qed.

Lemma posts_unchanged_saveToken tok st :
  posts (snd (saveToken tok st)) = posts st.
Proof.
  destruct st as [t p a s d n l]. unfold saveToken. run_sync.
  destruct (truthy tok); [destruct (toString tok)|]; reflexivity.
Qed.

Lemma posts_unchanged_setAuthState b st :
  posts (snd (setAuthState b st)) = posts st.
Proof.
  destruct st as [t p a s d n l]. unfold setAuthState, renderPosts. run_sync.
  destruct b; cbn -[renderMarkup]; destruct (renderMarkup _ _ _); reflexivity.
Qed.

Lemma posts_ok_saveToken tok : keeps posts_ok (saveToken tok).
Proof. intros st. apply posts_ok_same, posts_unchanged_saveToken. Qed.

Lemma posts_ok_setAuthState b : keeps posts_ok (setAuthState b).
Proof. intros st. apply posts_ok_same, posts_unchanged_setAuthState. Qed.

#[local] Hint Resolve posts_ok_saveToken posts_ok_setAuthState : keeps.

Lemma reachable_posts_ok stored page fmt sys :
  reachable posts_contract stored page fmt sys -> posts_ok (now sys).
Proof.
  intros H.
  apply (reachable_invariant posts_contract posts_ok) in H; [apply H|..].
  - exact posts_ok_map_dom.
  - exact posts_ok_log_request.
  - exact posts_ok_end_session.
  - keeps_tac.
  - intros stored' page' fmt'.
    assert (H0 : posts_ok (initial stored' page' fmt')) by constructor.
    revert H0. generalize (initial stored' page' fmt').
    change (keeps posts_ok (tok <- loadToken ;; saveToken tok ;;
                            tok <- read token ;; setAuthState (truthy tok))).
    unfold loadToken. keeps_tac.
  - intros hs b o _. keeps_tac.
  - exact posts_ok_loadPosts_resume.
  - exact posts_ok_handleCreatePost_resume.
  - exact posts_ok_handleDeletePost_resume.
  - exact posts_ok_handleClear_resume.
Qed.

(** Under both contracts both invariants hold. *)
Lemma reachable_server_contract stored page fmt sys :
  reachable server_contract stored page fmt sys ->
  session_ok (now sys) /\ posts_ok (now sys).
Proof.
  intros H. split.
  - apply (reachable_session_ok stored page fmt).
    revert H. apply reachable_weaken. now intros req o [].
  - apply (reachable_posts_ok stored page fmt).
    revert H. apply reachable_weaken. now intros req o [].
Qed.

(** With a server that keeps both contracts, load posts, publish and delete
    one end the session and show the message in whatever state the page has
    reached. *)
Lemma expired_session_shown_when_reachable stored page fmt sys o :
  reachable server_contract stored page fmt sys ->
  unauthorized o ->
  let ended (t : Susp) :=
    exists st', t = Finished (Normal tt) st'
                /\ session_cleared st'
                /\ loginError (dom st') = session_expired in
  ended (sync (loadPosts_resume (fetchJSON_result o)) (now sys))
  /\ ended (sync (handleCreatePost_resume (fetchJSON_result o)) (now sys))
  /\ forall id,
      ended (sync (handleDeletePost_resume id (fetchJSON_result o)) (now sys)).
Proof.
  intros Hreach Ho ended. subst ended. cbv beta.
  apply reachable_server_contract in Hreach. destruct Hreach as [_ Hposts].
  apply fetchJSON_result_unauthorized in Ho. rewrite Ho. unfold sync.
  destruct (end_session_run (now sys) Hposts) as (st2 & Hrun & Hclear & Hmsg & _).
  split; [|split; [|intros id]].
  - rewrite loadPosts_resume_unauthorized, Hrun. eauto.
  - rewrite handleCreatePost_resume_unauthorized. unfold finally. rewrite Hrun.
    destruct st2 as [t p a s d n l]. destruct d.
    eexists. split; [reflexivity|]. split; assumption.
  - rewrite handleDeletePost_resume_unauthorized, Hrun. eauto.
Qed.






(** *** Worked examples *)


Lemma publish_prepends_witness :
  exists c st'',
    sync (handleCreatePost_resume
            (fetchJSON_result (answer 201 "Created" "" (Some second_post))))
         drafting
    = Finished c st''
    /\ posts st'' = [second_post; sample_post].
Proof.
  epose proof (publish_prepends drafting _ _
                 (fun o => sync (handleCreatePost_resume (fetchJSON_result o)))
                 (answer 201 "Created" "" (Some second_post)) second_post drafting
                 eq_refl eq_refl)
    as (c & st'' & Hk & Hposts & _).
  exists c, st''. split; [exact Hk | exact Hposts].
Defined.

Lemma publish_needs_title_and_body_witness :
  exists st',
    handleCreatePost blank_title = Finished (Normal tt) st'
    /\ sent st' = sent blank_title
    /\ posts st' = posts blank_title.
Proof.
  apply (publish_needs_title_and_body blank_title). left. reflexivity.
Defined.


Lemma loadPosts_replaces_sequence_witness :
  exists c st'',
    sync (loadPosts_resume (fetchJSON_result (answer 200 "OK" "{}" (Some (JObj [])))))
         signed_in
    = Finished c st''
    /\ posts st'' = [].
Proof.
  epose proof (loadPosts_replaces_sequence signed_in _ _
                 (fun o => sync (loadPosts_resume (fetchJSON_result o)))
                 (answer 200 "OK" "{}" (Some (JObj []))) (JObj []) signed_in
                 eq_refl eq_refl)
    as (c & st'' & Hk & Hobject & _).
  exists c, st''. split; [exact Hk|].
  apply Hobject; discriminate.
Defined.

(** A successful answer can have no [posts] field because it has no fields
    at all: a body that is the JSON null, or status 204.  Load posts then
    keeps the sequence it had and shows the load-failure message. *)
Lemma loadPosts_null_keeps_sequence :
  (exists st1 req,
      loadPosts signed_in
      = AwaitFetch st1 req (fun o => sync (loadPosts_resume (fetchJSON_result o))))
  /\ fetchJSON_result null_body = Normal JNull
  /\ fetchJSON_result no_content = Normal JNull
  /\ (exists st'',
         sync (loadPosts_resume (fetchJSON_result null_body)) signed_in
         = Finished (Normal tt) st''
         /\ posts st'' = [sample_post]
         /\ posts st'' <> []
         /\ editorMessage (dom st'') = "Unable to load posts at the moment.")
  /\ (exists st'',
         sync (loadPosts_resume (fetchJSON_result no_content)) signed_in
         = Finished (Normal tt) st''
         /\ posts st'' = [sample_post]
         /\ posts st'' <> []
         /\ editorMessage (dom st'') = "Unable to load posts at the moment.").
Proof.
  split; [do 2 eexists; reflexivity|].
  do 2 (split; [reflexivity|]).
  split; eexists; (split; [reflexivity|]); cbn; repeat split; discriminate.
Qed.

(** ** Further properties of the script *)

(** *** The token store *)

(** X1. [saveToken] followed by [loadToken]: a truthy token is stored as its
    text and read back as that string; a falsy one empties the store and
    null is read back; a token whose text cannot be taken makes [saveToken]
    throw before anything is written.  Nothing but the store and
    [state.token] is touched. *)
Theorem saveToken_then_loadToken tok st :
  (forall s, truthy tok = true -> toString tok = Normal s ->
             exists st',
               saveToken tok st = (Normal tt, st')
               /\ loadToken st' = (Normal (JStr s), st')
               /\ token st' = tok)
  /\ (truthy tok = false ->
      exists st',
        saveToken tok st = (Normal tt, st')
        /\ loadToken st' = (Normal JNull, st')
        /\ token st' = tok)
  /\ (forall e, truthy tok = true -> toString tok = Throw e ->
                saveToken tok st = (Throw e, st))
  /\ (let st' := snd (saveToken tok st) in
      posts st' = posts st /\ authed st' = authed st
      /\ dom st' = dom st /\ sent st' = sent st).
Proof.
  destruct st as [t p a s d n l]. unfold saveToken, loadToken. run_sync.
  split; [|split; [|split]].
  - intros s' -> ->. eexists. repeat split.
  - intros ->. eexists. repeat split.
  - intros e -> ->. reflexivity.
  - destruct (truthy tok); [destruct (toString tok)|]; cbn; auto.
Qed.

Lemma saveToken_then_loadToken_witness :
  exists st',
    saveToken (JStr "secret") (initial None blank_page sample_locale)
    = (Normal tt, st')
    /\ loadToken st' = (Normal (JStr "secret"), st')
    /\ token st' = JStr "secret".
Proof.
  apply (proj1 (saveToken_then_loadToken
                  (JStr "secret") (initial None blank_page sample_locale)));
    reflexivity.
Defined.

(** *** The API client *)

Lemma assoc_app {A} name (l1 l2 : list (string * A)) :
  assoc name (l1 ++ l2)
  = match assoc name l1 with Some v => Some v | None => assoc name l2 end.
Proof.
  induction l1 as [|[k v] l1 IH]; cbn; [reflexivity|].
  destruct (k =? name); [reflexivity|exact IH].
Qed.

Lemma assoc_filter_other {A} key name (l : list (string * A)) :
  name <> key ->
  assoc name (filter (fun kv => negb (fst kv =? key)) l) = assoc name l.
Proof.
  intros Hne. induction l as [|[k v] l IH]; cbn; [reflexivity|].
  destruct (k =? key) eqn:Ek; cbn.
  - apply String.eqb_eq in Ek. subst k.
    apply not_eq_sym in Hne. apply String.eqb_neq in Hne. now rewrite Hne.
  - destruct (k =? name); [reflexivity|exact IH].
Qed.

Lemma assoc_filter_same {A} key (l : list (string * A)) :
  assoc key (filter (fun kv => negb (fst kv =? key)) l) = None.
Proof.
  induction l as [|[k v] l IH]; cbn; [reflexivity|].
  destruct (k =? key) eqn:Ek; cbn; [exact IH|]. now rewrite Ek.
Qed.

Lemma set_header_lookup key value hs :
  assoc key (set_header key value hs) = Some value
  /\ forall name, name <> key ->
                  assoc name (set_header key value hs) = assoc name hs.
Proof.
  unfold set_header. split.
  - rewrite assoc_app, assoc_filter_same. cbn. now rewrite String.eqb_refl.
  - intros name Hne. rewrite assoc_app, assoc_filter_other by assumption.
    destruct (assoc name hs); [reflexivity|]. cbn.
    apply not_eq_sym in Hne. apply String.eqb_neq in Hne. now rewrite Hne.
Qed.

(** X2. [authHeaders] never changes the page.  With a falsy token it gives
    the headers back as they are; with a truthy one it gives headers whose
    [Authorization] is [Bearer] and the text of the token, every other
    header being as before. *)
Theorem authHeaders_adds_bearer hs st :
  snd (authHeaders hs st) = st
  /\ (truthy (token st) = false -> fst (authHeaders hs st) = Normal hs)
  /\ (forall s, truthy (token st) = true -> toString (token st) = Normal s ->
                exists hs',
                  fst (authHeaders hs st) = Normal hs'
                  /\ assoc "Authorization" hs' = Some ("Bearer " ++ s)
                  /\ forall name, name <> "Authorization" ->
                                  assoc name hs' = assoc name hs).
Proof.
  split; [apply authHeaders_state|].
  unfold authHeaders. run_sync. split.
  - intros ->. reflexivity.
  - intros s -> ->. cbn. eexists. split; [reflexivity|].
    apply set_header_lookup.
Qed.

Lemma authHeaders_adds_bearer_witness :
  exists hs',
    fst (authHeaders [("Content-Type", "application/json")] signed_in) = Normal hs'
    /\ assoc "Authorization" hs' = Some "Bearer secret"
    /\ assoc "Content-Type" hs' = Some "application/json".
Proof.
  destruct (proj2 (proj2 (authHeaders_adds_bearer
                            [("Content-Type", "application/json")] signed_in))
                  "secret" eq_refl eq_refl) as (hs' & Hrun & Hauth & Hother).
  exists hs'. split; [exact Hrun|]. split; [exact Hauth|].
  rewrite Hother; [reflexivity|discriminate].
Defined.

(** Takes hypotheses about a response apart. *)
Ltac response_facts :=
  repeat match goal with
         | H : _ /\ _ |- _ => destruct H
         | H : exists _, _ |- _ => destruct H
         | H : unauthorized _ |- _ => destruct H
         | H : Responded _ = Responded _ |- _ => injection H as H; subst
         | H : Rejected = Responded _ |- _ => discriminate H
         | H : Throw _ = Throw _ |- _ => injection H as H; subst
         | H : Normal _ = Normal _ |- _ => injection H as H; subst
         | H : Some _ = Some _ |- _ => injection H as H; subst
         | H : (?x =? ?y)%Z = _, H' : context [(?x =? ?y)%Z] |- _ =>
             rewrite H in H'
         end;
  repeat match goal with
         | H : (_ =? _)%Z = true |- _ => apply Z.eqb_eq in H
         | H : (_ =? _)%Z = false |- _ => apply Z.eqb_neq in H
         end;
  try discriminate; try congruence.

(** X3. What [fetchJSON] settles to.  It is rejected with an
    [UnauthorizedError] exactly on a response of status 401; it is fulfilled
    exactly on a response whose status is in the success range, with null
    on 204 and with the parsed body otherwise; it is rejected with a
    [TypeError] exactly when [fetch] failed, and with a [SyntaxError]
    exactly on a success other than 204 whose body does not parse. *)
Theorem fetchJSON_result_cases o :
  (forall m, fetchJSON_result o = Throw (UnauthorizedError m)
             <-> unauthorized o /\ m = "Unauthorized")
  /\ (forall v, fetchJSON_result o = Normal v
                <-> exists r, o = Responded r /\ ok r = true
                              /\ (if (status r =? 204)%Z then v = JNull
                                  else json r = Some v))
  /\ (fetchJSON_result o = Throw TypeError <-> o = Rejected)
  /\ (fetchJSON_result o = Throw SyntaxError
      <-> exists r, o = Responded r /\ ok r = true
                    /\ status r <> 204%Z /\ json r = None).
Proof.
  destruct o as [|r]; cbn [fetchJSON_result].
  { split; [|split; [|split]]; try intros ?; split; intros H;
      response_facts; reflexivity. }
  unfold unauthorized.
  destruct (status r =? 401)%Z eqn:E401;
    [|destruct (ok r) eqn:Eok; cbn [negb];
      [destruct (status r =? 204)%Z eqn:E204;
       [|destruct (json r) as [parsed|] eqn:Ejson]|]].
  all: split; [|split; [|split]]; try intros ?; split; intros H.
  all: response_facts.
  all: try (unfold ok in *; lia).
  all: try (eexists; repeat split; eauto; response_facts;
            try rewrite E204; try reflexivity; try assumption).
  apply Z.eqb_neq in E204. now rewrite E204.
Qed.
Lemma fetchJSON_result_cases_witness :
  fetchJSON_result (answer 401 "Unauthorized" "" None)
  = Throw (UnauthorizedError "Unauthorized")
  /\ fetchJSON_result (answer 200 "OK" "{}" (Some (JObj []))) = Normal (JObj []).
Proof.
  split.
  - apply (proj1 (fetchJSON_result_cases (answer 401 "Unauthorized" "" None))).
    split; [eexists; split; reflexivity | reflexivity].
  - apply (proj1 (proj2 (fetchJSON_result_cases
                           (answer 200 "OK" "{}" (Some (JObj [])))))).
    eexists. split; [reflexivity|]. split; reflexivity.
Defined.

(** X4. The request [fetchJSON] hands to [fetch]: the path goes under
    [/api], method and body are the caller's.  A [Content-Type] the caller
    gave is never replaced; when there is a non-empty body and no
    [Content-Type] (or an empty one), [application/json] is put in and every
    other header is kept; without a body the headers are the caller's. *)
Theorem fetchJSON_request_headers path options :
  let req := fetchJSON_request path options in
  url req = "/api" ++ path
  /\ req_method req = method options
  /\ req_body req = body options
  /\ (forall v, assoc "Content-Type" (headers options) = Some v -> v <> "" ->
                req_headers req = headers options)
  /\ (body options = None \/ body options = Some "" ->
      req_headers req = headers options)
  /\ (forall b, body options = Some b -> b <> "" ->
                assoc "Content-Type" (headers options) = None
                \/ assoc "Content-Type" (headers options) = Some "" ->
                assoc "Content-Type" (req_headers req) = Some "application/json"
                /\ forall name, name <> "Content-Type" ->
                                assoc name (req_headers req)
                                = assoc name (headers options)).
Proof.
  cbv zeta. unfold fetchJSON_request. cbn [url req_method req_body req_headers].
  split; [reflexivity|]. split; [reflexivity|]. split; [reflexivity|].
  split; [|split].
  - intros v -> Hv. apply string_eqb_empty in Hv. rewrite Hv.
    now rewrite andb_false_r.
  - intros [-> | ->]; reflexivity.
  - intros b -> Hb Hct. apply string_eqb_empty in Hb. rewrite Hb.
    destruct Hct as [-> | ->]; cbn [negb andb String.eqb];
      apply set_header_lookup.
Qed.

Lemma fetchJSON_request_headers_witness :
  assoc "Content-Type"
        (req_headers (fetchJSON_request "/posts"
                        {| method := "POST";
                           headers := [("Authorization", "Bearer secret")];
                           body := Some "{}" |}))
  = Some "application/json".
Proof.
  apply (proj2 (proj2 (proj2 (proj2 (proj2
           (fetchJSON_request_headers "/posts"
              {| method := "POST";
                 headers := [("Authorization", "Bearer secret")];
                 body := Some "{}" |}))))) "{}");
    [reflexivity | discriminate | left; reflexivity].
Defined.

(** *** Escaping and rendering *)

Lemma escapeHtml_app s t : escapeHtml (s ++ t) = escapeHtml s ++ escapeHtml t.
Proof. unfold escapeHtml. now rewrite !replaceAll_app. Qed.

Lemma escape_char_plain a :
  special a = false -> escape_char a = String a EmptyString.
Proof.
  unfold special, escape_char. cbn [existsb].
  intros H. repeat (apply orb_false_elim in H; destruct H as [? H]).
  now repeat match goal with E : Ascii.eqb _ _ = false |- _ => rewrite E; clear E end.
Qed.

Lemma escape_char_special a :
  special a = true -> String.length (escape_char a) > 1.
Proof.
  unfold special. cbn [existsb]. rewrite orb_false_r. intros H.
  escape_cases a; cbn; try lia; discriminate.
Qed.

Lemma string_length_app (s t : string) :
  String.length (s ++ t) = String.length s + String.length t.
Proof. induction s; cbn; congruence. Qed.

Lemma escapeHtml_length value :
  String.length value <= String.length (escapeHtml value).
Proof.
  induction value as [|a s IH]; [apply Nat.le_refl|].
  rewrite escapeHtml_cons, string_length_app.
  assert (1 <= String.length (escape_char a)); [|cbn; lia].
  destruct (special a) eqn:E.
  - apply escape_char_special in E. lia.
  - rewrite (escape_char_plain a E). cbn. lia.
Qed.

(** X5. [escapeHtml] goes through a text piece by piece: the escape of a
    concatenation is the concatenation of the escapes.  It gives a text back
    unchanged exactly when the text holds none of the five characters, it
    never makes a text shorter, and two texts with the same escape are the
    same text. *)
Theorem escapeHtml_piecewise :
  (forall s t, escapeHtml (s ++ t) = escapeHtml s ++ escapeHtml t)
  /\ (forall s, escapeHtml s = s <-> has_special s = false)
  /\ (forall s, String.length s <= String.length (escapeHtml s))
  /\ (forall s t, escapeHtml s = escapeHtml t -> s = t).
Proof.
  split; [exact escapeHtml_app|]. split; [|split; [exact escapeHtml_length|]].
  - induction s as [|a s IH]; [split; reflexivity|].
    rewrite escapeHtml_cons. cbn [has_special].
    destruct (special a) eqn:E; cbn [orb].
    + split; [|discriminate]. intros H. exfalso.
      apply (f_equal String.length) in H. rewrite string_length_app in H.
      apply escape_char_special in E. pose proof (escapeHtml_length s).
      cbn in H. lia.
    + rewrite (escape_char_plain a E). cbn [append].
      split; [intros [= H]; now apply IH | intros H; f_equal; now apply IH].
  - intros s t H.
    rewrite <- (decode_escape_fuel s _ (Nat.le_refl _)).
    rewrite <- (decode_escape_fuel t _ (Nat.le_refl _)). now rewrite H.
Qed.

Lemma escapeHtml_piecewise_witness :
  escapeHtml "Tom and Jerry" = "Tom and Jerry" /\ "a<b" = "a<b".
Proof.
  split.
  - apply (proj1 (proj2 escapeHtml_piecewise)). reflexivity.
  - apply (proj2 (proj2 (proj2 escapeHtml_piecewise))). reflexivity.
Defined.
Lemma renderAll_app isAuthed fmt l1 l2 :
  renderAll isAuthed fmt (l1 ++ l2)%list
  = cbind (renderAll isAuthed fmt l1) (fun m1 =>
    cbind (renderAll isAuthed fmt l2) (fun m2 => Normal (m1 ++ m2))).
Proof.
  induction l1 as [|p l1 IH]; cbn [renderAll app cbind].
  - destruct (renderAll isAuthed fmt l2); reflexivity.
  - destruct (renderPost isAuthed fmt p) as [fragment|e]; cbn [cbind]; [|reflexivity].
    rewrite IH. destruct (renderAll isAuthed fmt l1) as [m1|e]; cbn [cbind];
      [|reflexivity].
    destruct (renderAll isAuthed fmt l2) as [m2|e]; cbn [cbind]; [|reflexivity].
    now rewrite string_app_assoc.
Qed.

(** X6. The markup of a sequence of posts is the markup of its posts one
    after the other, in the order of the sequence: rendering two sequences
    joined gives the two markups joined, and a post put in front of a
    non-empty sequence puts its fragment in front of the markup. *)
Theorem render_keeps_sequence_order isAuthed fmt :
  (forall l1 l2 m1 m2,
      renderAll isAuthed fmt l1 = Normal m1 ->
      renderAll isAuthed fmt l2 = Normal m2 ->
      renderAll isAuthed fmt (l1 ++ l2)%list = Normal (m1 ++ m2))
  /\ (forall post l fragment m,
         l <> [] ->
         renderPost isAuthed fmt post = Normal fragment ->
         renderMarkup isAuthed fmt l = Normal m ->
         renderMarkup isAuthed fmt (post :: l) = Normal (fragment ++ m)).
Proof.
  split.
  - intros l1 l2 m1 m2 H1 H2. now rewrite renderAll_app, H1, H2.
  - intros post l fragment m Hl Hpost Hm.
    destruct l as [|p l]; [contradiction|].
    cbn [renderMarkup] in *.
    change (renderAll isAuthed fmt (post :: p :: l))
      with (cbind (renderPost isAuthed fmt post) (fun fragment =>
            cbind (renderAll isAuthed fmt (p :: l)) (fun more =>
            Normal (fragment ++ more)))).
    now rewrite Hpost, Hm.
Qed.

Lemma render_keeps_sequence_order_witness :
  exists m1 m2,
    renderAll true sample_locale [second_post] = Normal m1
    /\ renderAll true sample_locale [sample_post] = Normal m2
    /\ renderAll true sample_locale [second_post; sample_post]
       = Normal (m1 ++ m2).
Proof.
  destruct (renderAll_posts true sample_locale [second_post]) as [m1 H1];
    [repeat constructor|].
  destruct (renderAll_posts true sample_locale [sample_post]) as [m2 H2];
    [repeat constructor|].
  exists m1, m2. split; [exact H1|]. split; [exact H2|].
  exact (proj1 (render_keeps_sequence_order true sample_locale)
               [second_post] [sample_post] m1 m2 H1 H2).
Defined.

Lemma renderAll_throws isAuthed fmt l1 p l2 e :
  Forall (fun q => is_post q = true) l1 ->
  renderPost isAuthed fmt p = Throw e ->
  renderAll isAuthed fmt (l1 ++ p :: l2)%list = Throw e.
Proof.
  intros H1 Hp. rewrite renderAll_app.
  destruct (renderAll_posts isAuthed fmt l1 H1) as [m1 ->].
  cbn [cbind renderAll]. now rewrite Hp.
Qed.

(** X7. One post that cannot be rendered stops the whole rendering: a post
    that is null, or whose [title] is not a string, makes [renderPosts]
    throw a [TypeError] wherever it stands after post records in the
    sequence, and the page, the markup in the container included, stays as
    it was. *)
Theorem render_stops_at_bad_post st l1 p l2 :
  posts st = (l1 ++ p :: l2)%list ->
  Forall (fun q => is_post q = true) l1 ->
  p = JNull
  \/ (exists fields, p = JObj fields
                     /\ forall s, assoc "title" fields <> Some (JStr s)) ->
  renderPosts st = (Throw TypeError, st).
Proof.
  intros Hposts H1 Hbad.
  assert (Hp : renderPost (authed st) (locale st) p = Throw TypeError).
  { destruct Hbad as [-> | (fields & -> & Htitle)]; [reflexivity|].
    unfold renderPost, getProp.
    destruct (assoc "createdAt" fields); cbn [cbind];
      (destruct (assoc "title" fields) as [[]|] eqn:E; cbn; try reflexivity;
       now destruct (Htitle s)). }
  unfold renderPosts, renderMarkup. rewrite Hposts.
  rewrite (renderAll_throws _ _ l1 p l2 TypeError H1 Hp).
  destruct l1; reflexivity.
Qed.

Lemma render_stops_at_bad_post_witness :
  renderPosts (set_posts [sample_post; JNull] signed_in)
  = (Throw TypeError, set_posts [sample_post; JNull] signed_in).
Proof.
  apply (render_stops_at_bad_post _ [sample_post] JNull []).
  - reflexivity.
  - repeat constructor.
  - left. reflexivity.
Defined.

Lemma encodeURIComponent_chars c s :
  occurs c (encodeURIComponent s) = true ->
  uri_unreserved c = true \/ c = "%"%char.
Proof.
  induction s as [|a s IH]; cbn [encodeURIComponent occurs]; [discriminate|].
  destruct (uri_unreserved a) eqn:Ea; cbn [occurs].
  - intros H. apply orb_true_iff in H. destruct H as [H|H]; [|now apply IH].
    apply Ascii.eqb_eq in H. subst. auto.
  - intros H. repeat (apply orb_true_iff in H; destruct H as [H|H]);
      try (now apply IH); apply Ascii.eqb_eq in H; subst; auto; left.
    + unfold hex_digit.
      assert (nat_of_ascii a / 16 < 16)
        by (apply Nat.Div0.div_lt_upper_bound; pose proof (nat_ascii_bounded a); lia).
      remember (nat_of_ascii a / 16) as n.
      do 16 (destruct n as [|n]; [reflexivity|]). lia.
    + unfold hex_digit.
      assert (nat_of_ascii a mod 16 < 16) by (apply Nat.mod_upper_bound; lia).
      remember (nat_of_ascii a mod 16) as n.
      do 16 (destruct n as [|n]; [reflexivity|]). lia.
Qed.

Lemma encodeURIComponent_path_safe s : path_safe (encodeURIComponent s) = true.
Proof.
  unfold path_safe.
  assert (H : forall c, uri_unreserved c = false -> c <> "%"%char ->
                        occurs c (encodeURIComponent s) = false).
  { intros c Hc Hp. destruct (occurs c (encodeURIComponent s)) eqn:E; [|reflexivity].
    apply encodeURIComponent_chars in E. destruct E; congruence. }
  rewrite !H; try reflexivity; discriminate.
Qed.

(** X8. The path of a delete request: whatever the identifier of the button
    clicked, the request goes to [/api/posts/] followed by one segment that
    holds no slash, question mark, number sign or space, with method
    [DELETE] and no body. *)
Theorem delete_request_path id confirmed st st1 req k :
  handleDeletePost id confirmed st = AwaitFetch st1 req k ->
  exists id' segment,
    id = Some id' /\ id' <> "" /\ confirmed = true /\ authed st = true
    /\ segment = encodeURIComponent id'
    /\ url req = "/api/posts/" ++ segment
    /\ path_safe segment = true
    /\ req_method req = "DELETE"
    /\ req_body req = None
    /\ sent st1 = req :: sent st.
Proof.
  unfold handleDeletePost, fetchJSON.
  destruct (authed st) eqn:Ea; cbn [negb];
    [|intros H; now apply sync_not_await in H].
  destruct id as [id'|]; [|discriminate].
  destruct (id' =? "") eqn:Eid; [discriminate|].
  destruct confirmed; cbn [negb]; [|discriminate].
  pose proof (authHeaders_state [] st) as Hst.
  destruct (authHeaders [] st) as [[hs|e] st2]; cbn [snd] in Hst; subst st2;
    intros H; [|now apply sync_not_await in H].
  injection H as <- <- _.
  exists id', (encodeURIComponent id').
  apply string_eqb_empty in Eid.
  repeat split; try assumption; try apply encodeURIComponent_path_safe.
  now destruct st.
Qed.

Lemma delete_request_path_witness :
  exists segment,
    segment = "a%2Fb%3Fc" /\ path_safe segment = true.
Proof.
  epose proof (delete_request_path
                 (Some "a/b?c") true signed_in _ _
                 (fun o => sync (handleDeletePost_resume "a/b?c"
                                   (fetchJSON_result o)))
                 eq_refl)
    as (id' & segment & Hid & _ & _ & _ & Hseg & _ & Hsafe & _).
  injection Hid as <-. exists segment. split; [exact Hseg | exact Hsafe].
Defined.
(** *** The session controller *)

(** X9. [setAuthState] whatever the page: the flag is the argument; the
    login panel and the visitor note are hidden exactly when it is true, the
    sign-out button, the post form and the admin note exactly when it is
    false; both buttons are enabled; token, store, posts and sent requests
    are untouched.  On true the login error is cleared, on false the login
    form is reset and the editor message cleared.  All of this holds even
    when the rendering that ends [setAuthState] throws. *)
Theorem setAuthState_panels isAuthed st :
  let st' := snd (setAuthState isAuthed st) in
  authed st' = isAuthed
  /\ hidden (dom st') = panels isAuthed
  /\ publishDisabled (dom st') = false
  /\ clearDisabled (dom st') = false
  /\ token st' = token st /\ storage st' = storage st
  /\ posts st' = posts st /\ sent st' = sent st
  /\ (if isAuthed
      then loginError (dom st') = ""
           /\ editorMessage (dom st') = editorMessage (dom st)
      else username (dom st') = "" /\ password (dom st') = ""
           /\ editorMessage (dom st') = ""
           /\ loginError (dom st') = loginError (dom st)).
Proof.
  destruct st as [t p a s d n l]. destruct d.
  unfold setAuthState, renderPosts. run_sync.
  destruct isAuthed; cbn -[renderMarkup];
    destruct (renderMarkup _ _ _); cbn; repeat split.
Qed.

Lemma startup_run stored page fmt :
  exists st1,
    (tok <- loadToken ;;
     saveToken tok ;;
     tok <- read token ;;
     setAuthState (truthy tok)) (initial stored page fmt) = (Normal tt, st1)
    /\ posts st1 = [] /\ sent st1 = []
    /\ postsContainer (dom st1) = placeholder
    /\ match stored with
       | Some s =>
           if s =? "" then session st1 = (JStr "", false, None)
           else session st1 = (JStr s, true, Some s)
       | None => session st1 = (JNull, false, None)
       end.
Proof.
  unfold initial, loadToken, saveToken, setAuthState, renderPosts. run_sync.
  destruct page. destruct stored as [s|]; cbn [storage truthy].
  - destruct (s =? "") eqn:E; [apply String.eqb_eq in E; subst s|];
      cbn; rewrite ?E; cbn; eexists;
      (split; [reflexivity|]); cbn; rewrite ?E; auto.
  - cbn. eexists. split; [reflexivity|]. cbn. auto.
Qed.

(** X10. The start of the script.  With a non-empty token in the store the
    page starts as an editor's: the flag is set, [state.token] is the stored
    token and the posts are asked for with that token as bearer.  With an
    empty store, or an empty string in it, the page starts as a visitor's:
    the flag is off, the store is empty and the request carries no header.
    Either way the placeholder stands in the container while the request is
    out, and that request is the only one. *)
Theorem startup_from_store stored page fmt :
  exists st1 k,
    startup (initial stored page fmt)
    = AwaitFetch st1 (match stored with
                      | Some s => if s =? "" then visitor_request
                                  else editor_request s
                      | None => visitor_request
                      end) k
    /\ k = (fun o => sync (loadPosts_resume (fetchJSON_result o)))
    /\ authed st1 = match stored with
                    | Some s => negb (s =? "")
                    | None => false
                    end
    /\ storage st1 = (if authed st1 then stored else None)
    /\ token st1 = match stored with
                   | Some s => JStr s
                   | None => JNull
                   end
    /\ postsContainer (dom st1) = placeholder
    /\ length (sent st1) = 1.
Proof.
  destruct (startup_run stored page fmt) as (st0 & Hrun & Hposts & Hsent & Hph & Hs).
  unfold startup, seqA, sync. rewrite Hrun. cbn [and_then].
  destruct st0 as [t p a s d n l]. cbn in Hposts, Hsent, Hph. subst.
  unfold session in Hs. cbn [token authed storage] in Hs.
  unfold loadPosts, authHeaders, fetchJSON. run_sync. cbn [token].
  destruct stored as [s'|];
    [destruct (s' =? "") eqn:E; [apply String.eqb_eq in E; subst s'|]|];
    injection Hs as -> -> ->; cbn; rewrite ?E; cbn;
    do 2 eexists; (split; [reflexivity|]); cbn;
    repeat split; assumption.
Qed.
(** *** Login and sign-out *)

(** X11. Login with no name (after trimming) or no password: the handler
    finishes at once with the both-fields message in the login error line;
    nothing is handed to [fetch], and session, store and posts are as they
    were. *)
Theorem login_needs_name_and_password st :
  trim (username (dom st)) = "" \/ password (dom st) = "" ->
  handleLogin st
  = Finished (Normal tt)
             (map_dom (dom_loginError "Enter both username and password.")
                      (map_dom (dom_loginError "") st))
  /\ sent st = sent (map_dom (dom_loginError "") st).
Proof.
  destruct st as [t p a s d n l]. destruct d as [le em pc pd cd h u pw pt pb].
  cbn [dom username password]. intros H. unfold handleLogin.
  cbn [map_dom dom dom_loginError username password].
  match goal with |- context [?x || ?y] =>
    assert (E : x || y = true)
      by (destruct H as [-> | ->]; [reflexivity | apply orb_true_r]) end.
  rewrite E. split; reflexivity.
Qed.

Lemma login_needs_name_and_password_witness :
  handleLogin (map_dom (dom_field Username "  ")
                       (map_dom (dom_field Password "pw") signed_in))
  = Finished (Normal tt)
             (map_dom (dom_loginError "Enter both username and password.")
                (map_dom (dom_loginError "")
                   (map_dom (dom_field Username "  ")
                      (map_dom (dom_field Password "pw") signed_in)))).
Proof.
  apply (login_needs_name_and_password
           (map_dom (dom_field Username "  ")
                    (map_dom (dom_field Password "pw") signed_in))).
  left. reflexivity.
Defined.

(** X12. The login request: with a name and a password the handler posts
    to [/api/login] the JSON text of the trimmed name and the password as
    typed, with a JSON content type and never an [Authorization] header; the
    page has only its login error line cleared while the request is out. *)
Theorem login_request st :
  trim (username (dom st)) <> "" -> password (dom st) <> "" ->
  exists k,
    handleLogin st
    = AwaitFetch
        (log_request
           {| url := "/api/login"; req_method := "POST";
              req_headers := [("Content-Type", "application/json")];
              req_body := Some (JSON_stringify
                                  [("username", trim (username (dom st)));
                                   ("password", password (dom st))]) |}
           (map_dom (dom_loginError "") st))
        {| url := "/api/login"; req_method := "POST";
           req_headers := [("Content-Type", "application/json")];
           req_body := Some (JSON_stringify
                               [("username", trim (username (dom st)));
                                ("password", password (dom st))]) |}
        k
    /\ k = (fun o => handleLogin_resume (fetchJSON_result o)).
Proof.
  destruct st as [t p a s d n l]. destruct d as [le em pc pd cd h u pw pt pb].
  cbn [dom username password]. intros Hu Hp. unfold handleLogin.
  cbn [map_dom dom dom_loginError username password].
  apply string_eqb_empty in Hu, Hp. rewrite Hu, Hp. cbn [orb].
  eexists. split; reflexivity.
Qed.

Lemma login_request_witness :
  exists st1 k,
    handleLogin (map_dom (dom_field Username " editor ")
                         (map_dom (dom_field Password "pw")
                                  (initial None blank_page sample_locale)))
    = AwaitFetch st1
        {| url := "/api/login"; req_method := "POST";
           req_headers := [("Content-Type", "application/json")];
           req_body := Some ("{" ++ q ++ "username" ++ q ++ ":" ++ q ++ "editor"
                             ++ q ++ "," ++ q ++ "password" ++ q ++ ":" ++ q
                             ++ "pw" ++ q ++ "}") |} k.
Proof.
  destruct (login_request
              (map_dom (dom_field Username " editor ")
                       (map_dom (dom_field Password "pw")
                                (initial None blank_page sample_locale))))
    as (k & Hk & _); [discriminate | discriminate |].
  do 2 eexists. exact Hk.
Defined.

(** *** What rendering can throw *)

Lemma getProp_throws v name e : getProp v name = Throw e -> e = TypeError.
Proof.
  destruct v; cbn; try discriminate; try (now intros [= <-]).
  destruct (assoc name fields); discriminate.
Qed.

Lemma toString_throws v : forall e, toString v = Throw e -> e = TypeError.
Proof.
  induction v as [| | | | |items IH|fields _] using value_induction;
    intros e; cbn [toString]; try discriminate.
  - match goal with |- ?join true items = Throw e -> _ =>
      cut (forall first, join first items = Throw e -> e = TypeError);
      [intros H; apply H|]
    end.
    revert e. induction IH as [|x xs Hx _ IHxs]; intros e first; [discriminate|].
    destruct (match x with
              | JUndefined | JNull => Normal ""
              | _ => toString x
              end) as [s|e'] eqn:Ex; cbn [cbind].
    + match goal with |- context [cbind ?c _] =>
        destruct c as [r|e'] eqn:Hr end; cbn [cbind]; [discriminate|].
      intros [= <-]. now apply (IHxs e' false).
    + intros [= <-]. apply Hx. destruct x; try discriminate; exact Ex.
  - destruct (assoc "toString" fields); [now intros [= <-]|discriminate].
Qed.

Lemma escapeHtml_value_throws v e :
  escapeHtml_value v = Throw e -> e = TypeError.
Proof. destruct v; cbn; try discriminate; now intros [= <-]. Qed.

Lemma cbind_throws {A B} (c : Completion A) (k : A -> Completion B) e :
  cbind c k = Throw e ->
  c = Throw e \/ exists x, c = Normal x /\ k x = Throw e.
Proof. destruct c as [x|e']; cbn [cbind]; [eauto|intros [= <-]; auto]. Qed.

Lemma renderPost_throws isAuthed fmt p e :
  renderPost isAuthed fmt p = Throw e -> e = TypeError.
Proof.
  unfold renderPost. intros H.
  repeat match goal with
         | H : cbind _ _ = Throw _ |- _ =>
             apply cbind_throws in H; destruct H as [H | (? & _ & H)]
         | H : (if ?b then _ else _) = Throw _ |- _ => destruct b
         | H : getProp _ _ = Throw _ |- _ => now apply getProp_throws in H
         | H : toString _ = Throw _ |- _ => now apply toString_throws in H
         | H : escapeHtml_value _ = Throw _ |- _ =>
             now apply escapeHtml_value_throws in H
         | H : Normal _ = Throw _ |- _ => discriminate H
         end.
Qed.

Lemma renderMarkup_throws isAuthed fmt l e :
  renderMarkup isAuthed fmt l = Throw e -> e = TypeError.
Proof.
  intros H. assert (H' : renderAll isAuthed fmt l = Throw e)
    by (destruct l; [discriminate H | exact H]).
  clear H. induction l as [|p l IH]; [discriminate|].
  cbn [renderAll] in H'. apply cbind_throws in H'.
  destruct H' as [H | (f & _ & H)]; [now apply renderPost_throws in H|].
  apply cbind_throws in H. destruct H as [H | (m & _ & H)]; [auto|discriminate].
Qed.
(** Load posts never ends in a rejection when the posts in memory are post
    records: whatever the call gave, the [catch] takes it. *)
Lemma loadPosts_resume_completes r st :
  posts_ok st -> exists st', loadPosts_resume r st = (Normal tt, st').
Proof.
  intros H. unfold loadPosts_resume, try_catch.
  match goal with |- context [bind ?m ?k st] =>
    destruct (bind m k st) as [[[]|e] st1] eqn:Hrun end; [eauto|].
  unfold loadPosts_catch. fold end_session.
  destruct (instanceofUnauthorized e) eqn:Ee;
    [|destruct st1 as [? ? ? ? []]; eexists; reflexivity].
  assert (st1 = st).
  { revert Hrun. run_sync. destruct r as [v|e']; [|now intros [= _ <-]].
    destruct (getProp v "posts") as [field|e'] eqn:Hf; [|now intros [= _ <-]].
    unfold renderPosts. destruct st as [t p a s d n l]. cbn -[renderMarkup].
    destruct (renderMarkup _ _ _) as [m|e'] eqn:Hm; [discriminate|].
    intros [= <- <-]. apply renderMarkup_throws in Hm. now subst e'. }
  subst st1. destruct (end_session_run st H) as (st' & -> & _). eauto.
Qed.
(** X13. A login that succeeds with a non-empty string as token: the token
    goes into the store and into [state.token], the flag is set, the panels
    change to the editor's, and the posts are asked for with the new token
    as bearer.  When that request has been answered, whatever the answer
    (an unauthorized one included), the handler finishes with the welcome
    message in the editor line. *)
Theorem login_success_opens_session result tok st :
  getProp result "token" = Normal (JStr tok) -> tok <> "" -> posts_ok st ->
  exists st1 k,
    handleLogin_resume (Normal result) st
    = AwaitFetch st1 (editor_request tok) k
    /\ token st1 = JStr tok /\ storage st1 = Some tok /\ authed st1 = true
    /\ hidden (dom st1) = panels true
    /\ posts st1 = posts st
    /\ sent st1 = editor_request tok :: sent st
    /\ forall o st2,
        posts_ok st2 ->
        exists st3,
          k o st2 = Finished (Normal tt) st3
          /\ editorMessage (dom st3) = "Welcome back! You're signed in.".
Proof.
  intros Htok Hne Hposts.
  destruct st as [t p a s d n l]. destruct d as [le em pc pd cd h u pw pt pb].
  unfold posts_ok in Hposts. cbn [posts] in Hposts.
  destruct (renderMarkup_posts true l p Hposts) as [m Hm].
  unfold handleLogin_resume, try_catchA, seqA, sync.
  unfold saveToken, setAuthState, renderPosts. run_sync.
  rewrite Htok. apply string_eqb_empty in Hne.
  cbn -[renderMarkup loadPosts]. rewrite Hne. cbn -[renderMarkup loadPosts].
  rewrite Hm. cbn -[loadPosts].
  unfold loadPosts, authHeaders, fetchJSON. run_sync.
  cbn [token truthy]. rewrite Hne. cbn -[loadPosts_resume].
  do 2 eexists. split; [reflexivity|]. repeat split.
  intros o st2 H2.
  destruct (loadPosts_resume_completes (fetchJSON_result o) st2 H2)
    as (st3 & ->).
  cbn. destruct st3 as [t3 p3 a3 s3 d3 n3 l3]. destruct d3.
  eexists. split; reflexivity.
Qed.

Lemma login_success_opens_session_witness :
  exists st1 k,
    handleLogin_resume (Normal (JObj [("token", JStr "abc")]))
                       (initial None blank_page sample_locale)
    = AwaitFetch st1 (editor_request "abc") k
    /\ storage st1 = Some "abc".
Proof.
  destruct (login_success_opens_session
              (JObj [("token", JStr "abc")]) "abc"
              (initial None blank_page sample_locale))
    as (st1 & k & H & _ & Hs & _);
    [reflexivity | discriminate | constructor |].
  exists st1, k. split; [exact H | exact Hs].
Defined.

(** X14. A login that fails: when the call is rejected, or fulfils with a
    value whose [token] cannot be read (null, as a 204 answer gives), the
    handler finishes with the credentials message for an unauthorized
    answer and the try-again message for anything else, in the login error
    line; the session, the store, the posts and the rest of the page stay
    as they were, and no further request is made. *)
Theorem login_failure_keeps_session r e st :
  cbind r (fun result => getProp result "token") = Throw e ->
  handleLogin_resume r st
  = Finished (Normal tt)
      (map_dom (dom_loginError
                  (if instanceofUnauthorized e
                   then "Credentials were incorrect."
                   else "Unable to sign in. Please try again.")) st).
Proof.
  intros H. destruct st as [t p a s d n l]. destruct d.
  unfold handleLogin_resume, try_catchA, seqA, sync, handleLogin_catch.
  run_sync. destruct r as [v|e']; cbn [cbind] in H.
  - rewrite H. cbn. destruct (instanceofUnauthorized e); reflexivity.
  - injection H as ->. cbn. destruct (instanceofUnauthorized e); reflexivity.
Qed.

Lemma login_failure_keeps_session_witness :
  handleLogin_resume (fetchJSON_result no_content) signed_in
  = Finished (Normal tt)
      (map_dom (dom_loginError "Unable to sign in. Please try again.")
               signed_in).
Proof.
  apply (login_failure_keeps_session
           (fetchJSON_result no_content) TypeError signed_in).
  reflexivity.
Defined.


(** *** Sign-out *)





(** *** Delete one post *)




(** *** Guards of the editor's actions *)

(** X19. Without the flag the editor's actions do nothing but say so:
    publish, delete and delete-all each finish at once with their own
    sign-in message in the editor line, whatever else is on the page;
    nothing is handed to [fetch] and posts, token and store are as they
    were. *)
Theorem editor_actions_need_session st id confirmed :
  authed st = false ->
  handleCreatePost st
  = Finished (Normal tt)
             (map_dom (dom_editorMessage "Sign in to publish posts.") st)
  /\ handleDeletePost id confirmed st
     = Finished (Normal tt)
                (map_dom (dom_editorMessage "Sign in to manage posts.") st)
  /\ (posts st <> [] ->
      handleClear confirmed st
      = Finished (Normal tt)
                 (map_dom (dom_editorMessage "Sign in to remove posts.") st)).
Proof.
  destruct st as [t p a s d n l]. cbn [authed posts]. intros ->.
  split; [reflexivity|]. split; [reflexivity|].
  intros Hp. destruct p; [congruence|reflexivity].
Qed.

Lemma editor_actions_need_session_witness :
  handleCreatePost (set_authed false drafting)
  = Finished (Normal tt)
             (map_dom (dom_editorMessage "Sign in to publish posts.")
                      (set_authed false drafting)).
Proof.
  apply (editor_actions_need_session (set_authed false drafting) None true).
  reflexivity.
Defined.



(** *** Failures other than an unauthorized answer *)

(** X21. When a request fails with anything but an unauthorized answer
    (a network error, a 500), each handler only writes its own message into
    the editor line and keeps posts, token, store, flag and panels: load,
    publish, delete one and delete all alike; publish and delete-all also
    enable their button again. *)
Theorem other_failures_keep_page e id st :
  instanceofUnauthorized e = false ->
  loadPosts_resume (Throw e) st
  = (Normal tt,
     map_dom (dom_editorMessage "Unable to load posts at the moment.") st)
  /\ handleCreatePost_resume (Throw e) st
     = (Normal tt,
        map_dom (dom_publishDisabled false)
          (map_dom (dom_editorMessage "Unable to publish. Please try again.") st))
  /\ handleDeletePost_resume id (Throw e) st
     = (Normal tt, map_dom (dom_editorMessage "Unable to delete post.") st)
  /\ handleClear_resume (Throw e) st
     = (Normal tt,
        map_dom (dom_clearDisabled false)
          (map_dom (dom_editorMessage "Unable to clear posts.") st)).
Proof.
  intros He. destruct st as [t p a s d n l]. destruct d.
  unfold loadPosts_resume, handleCreatePost_resume, handleDeletePost_resume,
    handleClear_resume, loadPosts_catch, handleCreatePost_catch,
    handleDeletePost_catch, handleClear_catch, handleCreatePost_finally,
    handleClear_finally.
  run_sync. rewrite He. repeat split.
Qed.

Lemma other_failures_keep_page_witness :
  loadPosts_resume (Throw (Error "Internal Server Error")) signed_in
  = (Normal tt,
     map_dom (dom_editorMessage "Unable to load posts at the moment.") signed_in).
Proof.
  apply (other_failures_keep_page (Error "Internal Server Error") "1" signed_in).
  reflexivity.
Defined.

(** X22. The publish and the delete-all button are never left disabled:
    whatever the call gave, and even when rendering throws inside the
    [catch], the [finally] enables the button again. *)
Theorem buttons_enabled_again result joined st :
  publishDisabled (dom (snd (handleCreatePost_resume result st))) = false
  /\ clearDisabled (dom (snd (handleClear_resume joined st))) = false.
Proof.
  unfold handleCreatePost_resume, handleClear_resume, handleCreatePost_finally,
    handleClear_finally, finally.
  split.
  - destruct (try_catch _ _ st) as [c [t p a s d n l]]. destruct d.
    unfold update_dom. cbn. now destruct c.
  - destruct (try_catch _ _ st) as [c [t p a s d n l]]. destruct d.
    unfold update_dom. cbn. now destruct c.
Qed.
(** *** Publish *)

(** X23. The publish request: signed in, with a title and a body that are
    not blank, the handler posts to [/api/posts] the JSON text of the
    trimmed title and the trimmed body, with a JSON content type and the
    token as bearer; the publish button is disabled while the request is
    out, and the posts are as they were. *)
Theorem publish_request_content tok st :
  authed st = true -> token st = JStr tok -> tok <> "" ->
  trim (postTitle (dom st)) <> "" -> trim (postBody (dom st)) <> "" ->
  exists st1,
    handleCreatePost st
    = AwaitFetch st1
        (publish_request tok (trim (postTitle (dom st)))
                         (trim (postBody (dom st))))
        (fun o => sync (handleCreatePost_resume (fetchJSON_result o)))
    /\ publishDisabled (dom st1) = true
    /\ posts st1 = posts st
    /\ sent st1 = publish_request tok (trim (postTitle (dom st)))
                                  (trim (postBody (dom st))) :: sent st.
Proof.
  destruct st as [t p a s d n l]. destruct d as [le em pc pd cd h u pw pt pb].
  cbn [authed token dom postTitle postBody]. intros -> -> Hne Ht Hb.
  apply string_eqb_empty in Hne, Ht, Hb.
  unfold handleCreatePost, authHeaders, fetchJSON. run_sync.
  cbn [authed negb map_dom dom dom_publishDisabled postTitle postBody].
  rewrite Ht, Hb. cbn [orb token truthy toString]. rewrite Hne.
  cbn -[JSON_stringify trim handleCreatePost_resume].
  unfold fetchJSON_request.
  cbn -[JSON_stringify trim handleCreatePost_resume].
  eexists. split; [reflexivity|]. repeat split.
Qed.

Lemma publish_request_content_witness :
  exists st1,
    handleCreatePost drafting
    = AwaitFetch st1 (publish_request "secret" "T" "B")
        (fun o => sync (handleCreatePost_resume (fetchJSON_result o))).
Proof.
  destruct (publish_request_content "secret" drafting)
    as (st1 & H & _); try reflexivity; try discriminate.
  exists st1. exact H.
Defined.


(** X25. A publish that the server answered with something that cannot be
    rendered (null, as a 204 answer gives): the value is put at the head of
    the sequence and the form is emptied before rendering throws; the
    [catch] then reports that publishing failed, and the container keeps
    what it showed.  The value stays in the sequence. *)
Theorem publish_unrenderable_answer newPost e st :
  renderPost (authed st) (locale st) newPost = Throw e ->
  exists st',
    handleCreatePost_resume (Normal newPost) st = (Normal tt, st')
    /\ posts st' = newPost :: posts st
    /\ postTitle (dom st') = "" /\ postBody (dom st') = ""
    /\ editorMessage (dom st') = "Unable to publish. Please try again."
    /\ postsContainer (dom st') = postsContainer (dom st)
    /\ publishDisabled (dom st') = false
    /\ session st' = session st /\ sent st' = sent st.
Proof.
  destruct st as [t p a s d n l]. destruct d as [le em pc pd cd h u pw pt pb].
  cbn [authed locale]. intros Hr.
  pose proof (renderPost_throws _ _ _ _ Hr) as ->.
  unfold handleCreatePost_resume, handleCreatePost_finally, renderPosts,
    handleCreatePost_catch.
  run_sync. cbn -[renderPost renderAll]. cbn [renderAll]. rewrite Hr.
  cbn. eexists. split; [reflexivity|]. cbn. repeat split.
Qed.

Lemma publish_unrenderable_answer_witness :
  exists st',
    handleCreatePost_resume (fetchJSON_result no_content) signed_in
    = (Normal tt, st')
    /\ posts st' = [JNull; sample_post].
Proof.
  destruct (publish_unrenderable_answer JNull TypeError signed_in)
    as (st' & H & Hp & _); [reflexivity|].
  exists st'. split; [exact H | exact Hp].
Defined.
(** *** Delete all *)

Lemma deleteRequests_posts tok l :
  tok <> "" -> Forall (fun p => is_post p = true) l ->
  forall p a s d n fmt,
  exists ids,
    Forall2 (fun post id => getProp post "id" = Normal (JStr id)) l ids
    /\ deleteRequests l {| token := JStr tok; posts := p; authed := a;
                           storage := s; dom := d; sent := n; locale := fmt |}
       = (Normal (map (delete_request tok) ids),
          {| token := JStr tok; posts := p; authed := a; storage := s;
             dom := d; sent := (rev (map (delete_request tok) ids) ++ n)%list;
             locale := fmt |}).
Proof.
  intros Hne. apply string_eqb_empty in Hne.
  induction 1 as [|post rest Hpost _ IH]; intros p a s d n fmt.
  - exists []. split; [constructor|reflexivity].
  - assert (Hid : exists id, getProp post "id" = Normal (JStr id)).
    { destruct post; try discriminate Hpost. cbn in *.
      destruct (assoc "id" fields) as [[]|]; try discriminate Hpost. eauto. }
    destruct Hid as [id Hid].
    destruct (IH p a s d (delete_request tok id :: n) fmt) as (ids & Hids & Hrun).
    exists (id :: ids). split; [now constructor|].
    cbn [deleteRequests]. unfold authHeaders. run_sync. rewrite Hid.
    cbn [toString token truthy]. rewrite Hne. cbn [negb].
    change (fetchJSON_request ("/posts/" ++ encodeURIComponent id)
              {| method := "DELETE";
                 headers := set_header "Authorization" ("Bearer " ++ tok) [];
                 body := None |})
      with (delete_request tok id).
    cbn [log_request]. rewrite Hrun. cbn [map rev].
    now rewrite <- app_assoc.
Qed.

(** X26. Delete all, confirmed by an editor whose posts are post records:
    one [DELETE] request per post goes out, in the order of the sequence,
    each to the path of that post's identifier and with the token as
    bearer; they are handed to [fetch] one after the other before any is
    answered.  The button is disabled and the posts are as they were while
    the requests are out. *)
Theorem clear_sends_one_request_per_post tok st :
  authed st = true -> token st = JStr tok -> tok <> "" ->
  posts st <> [] -> posts_ok st ->
  exists st1 ids,
    handleClear true st
    = AwaitAll st1 (map (delete_request tok) ids)
        (fun settled =>
           sync (handleClear_resume (promise_all (length ids) settled)))
    /\ Forall2 (fun post id => getProp post "id" = Normal (JStr id))
               (posts st) ids
    /\ sent st1 = (rev (map (delete_request tok) ids) ++ sent st)%list
    /\ clearDisabled (dom st1) = true
    /\ posts st1 = posts st /\ session st1 = session st.
Proof.
  destruct st as [t p a s d n l]. destruct d as [le em pc pd cd h u pw pt pb].
  unfold posts_ok. cbn [authed token posts]. intros -> -> Hne Hp Hok.
  unfold handleClear. cbn [posts authed negb map_dom dom_clearDisabled dom].
  destruct p as [|post rest]; [congruence|].
  match goal with |- context [deleteRequests ?ps ?st0] =>
    destruct (deleteRequests_posts tok ps Hne Hok (post :: rest) true s
                (dom st0) n l) as (ids & Hids & Hrun)
  end.
  cbn [dom] in Hrun. rewrite Hrun. rewrite length_map.
  do 2 eexists. split; [reflexivity|]. repeat split. exact Hids.
Qed.

Lemma clear_sends_one_request_per_post_witness :
  exists st1,
    handleClear true three_posts
    = AwaitAll st1
        [delete_request "secret" "3"; delete_request "secret" "2";
         delete_request "secret" "1"]
        (fun settled => sync (handleClear_resume (promise_all 3 settled))).
Proof.
  destruct (clear_sends_one_request_per_post "secret" three_posts)
    as (st1 & ids & H & Hids & _);
    [reflexivity | reflexivity | discriminate | discriminate
    | repeat constructor |].
  exists st1.
  repeat match goal with
         | H : Forall2 _ _ _ |- _ => inversion H; subst; clear H
         end.
  repeat match goal with
         | H : getProp _ _ = Normal (JStr _) |- _ => injection H as <-
         end.
  exact H.
Defined.

(** X27. Delete all, when every request succeeded: the sequence is emptied,
    the editor line says all posts are removed, the container shows the
    placeholder and the button is enabled again; the session is as it
    was. *)
Theorem clear_success_page n settled st :
  (forall i, i < n ->
             is_normal (fetchJSON_result (outcome (settled i))) = true) ->
  exists st',
    handleClear_resume (promise_all n settled) st = (Normal tt, st')
    /\ posts st' = []
    /\ editorMessage (dom st') = "All posts removed."
    /\ postsContainer (dom st') = placeholder
    /\ clearDisabled (dom st') = false
    /\ session st' = session st /\ sent st' = sent st.
Proof.
  intros Hall. unfold promise_all. rewrite (first_rejection_none _ _ Hall).
  destruct st as [t p a s d m l]. destruct d.
  unfold handleClear_resume, handleClear_finally, renderPosts. run_sync.
  cbn. eexists. split; [reflexivity|]. cbn. repeat split.
Qed.

Lemma clear_success_page_witness :
  exists st',
    handleClear_resume
      (promise_all 3 (fun i => {| outcome := no_content; settledAt := i |}))
      three_posts
    = (Normal tt, st')
    /\ posts st' = [].
Proof.
  destruct (clear_success_page
              3 (fun i => {| outcome := no_content; settledAt := i |})
              three_posts)
    as (st' & H & Hp & _); [reflexivity|].
  exists st'. split; [exact H | exact Hp].
Defined.
(** *** The token store and the token in memory *)

Lemma store_agrees_same st st' :
  token st' = token st -> storage st' = storage st ->
  store_agrees st -> store_agrees st'.
Proof. unfold store_agrees. now intros -> ->. Qed.

Lemma store_agrees_map_dom f st : store_agrees st -> store_agrees (map_dom f st).
Proof. apply store_agrees_same; now destruct st. Qed.

Lemma store_agrees_log_request r st :
  store_agrees st -> store_agrees (log_request r st).
Proof. apply store_agrees_same; now destruct st. Qed.

Lemma store_agrees_saveToken tok : keeps store_agrees (saveToken tok).
Proof.
  intros st H. destruct st as [t p a s d n l]. revert H.
  unfold saveToken. run_sync. unfold store_agrees.
  destruct (truthy tok) eqn:Et.
  - destruct (toString tok) as [text|e] eqn:Es; cbn; auto.
  - cbn. auto.
Qed.

Lemma store_agrees_setAuthState b : keeps store_agrees (setAuthState b).
Proof.
  intros st. apply store_agrees_same; destruct st as [t p a s d n l];
    unfold setAuthState, renderPosts; run_sync;
    destruct b; cbn -[renderMarkup]; now destruct (renderMarkup _ _ _).
Qed.

Lemma store_agrees_set_posts (f : State -> list JValue) :
  keeps store_agrees (update (fun st => set_posts (f st) st)).
Proof. intros st. apply store_agrees_same; now destruct st. Qed.

Lemma store_agrees_end_session : keeps store_agrees end_session.
Proof.
  unfold end_session.
  apply keeps_bind; [apply store_agrees_saveToken | intros _].
  apply keeps_bind; [apply store_agrees_setAuthState | intros _].
  intros st. apply store_agrees_map_dom.
Qed.

#[local] Hint Resolve keeps_ret keeps_lift keeps_read keeps_authHeaders
  keeps_update_dom keeps_renderPosts keeps_loadPosts_catch
  keeps_handleCreatePost_catch keeps_handleDeletePost_catch
  keeps_handleClear_catch keeps_handleLogin_catch
  store_agrees_map_dom store_agrees_end_session store_agrees_set_posts
  store_agrees_saveToken store_agrees_setAuthState : keeps.

Lemma store_agrees_startup stored page fmt :
  store_agrees
    (snd ((tok <- loadToken ;;
           saveToken tok ;;
           tok <- read token ;;
           setAuthState (truthy tok)) (initial stored page fmt))).
Proof.
  destruct (startup_run stored page fmt) as (st1 & -> & _ & _ & _ & H).
  cbn [snd]. unfold store_agrees, session in *.
  destruct stored as [s|].
  - destruct (s =? "") eqn:E; injection H as -> _ ->; cbn; rewrite ?E; auto.
  - injection H as -> _ ->. reflexivity.
Qed.

(** X28. The token store and [state.token] always agree, whatever the
    server answers: in every state the page can reach, when the store holds
    a string, [state.token] is a truthy value whose text is that string, and
    when the store is empty, [state.token] is falsy.  Nothing but
    [saveToken] writes either of them. *)
Theorem store_agrees_always stored page fmt sys :
  reachable any_answer stored page fmt sys -> store_agrees (now sys).
Proof.
  intros H.
  apply (reachable_invariant any_answer store_agrees) in H; [apply H|..].
  - exact store_agrees_map_dom.
  - exact store_agrees_log_request.
  - exact store_agrees_end_session.
  - keeps_tac.
  - exact store_agrees_startup.
  - intros hs b o _. keeps_tac.
  - intros hs o _. unfold loadPosts_resume. keeps_tac.
  - intros hs b o _.
    unfold handleCreatePost_resume, handleCreatePost_finally. keeps_tac.
  - intros id r. unfold handleDeletePost_resume. keeps_tac.
  - intros r. unfold handleClear_resume, handleClear_finally. keeps_tac.
Qed.

Lemma store_agrees_always_witness : store_agrees (now started).
Proof.
  apply (store_agrees_always (Some "secret") blank_page sample_locale started).
  apply reach_start.
Defined.
